(** * Canary-Bot: group routing and relay fan-out

    A shallow embedding of [Canary-Code.py]: the three module-level
    dictionaries ([group_mappings], [relay_enabled], [server_groups]), the
    settings snapshot ([load_settings], [save_settings]), the administrator
    commands and the message handler ([relay_message], [format_mentions],
    [on_message]).

    Python dictionaries keep insertion order, and the order is observable
    (the saved document, the [display] command, the order in which relay
    tasks are created), so a dictionary is an association list with the
    update discipline of [dict.__setitem__]: an existing key is overwritten
    where it stands, a new key goes to the end. *)

From Stdlib Require Import ZArith List String Ascii Bool Lia.
From Stdlib Require Import Decimal DecimalString DecimalZ DecimalN DecimalPos.
Import ListNotations.

Local Open Scope string_scope.
Local Open Scope Z_scope.
Local Open Scope list_scope.

(** String concatenation, Python's [+] on [str]. *)
Infix "+++" := String.append (right associativity, at level 60).


(** * Part I: the program *)

(** ** Keys *)

(** What Python asks of a dictionary key, as far as this program goes: an
    equality test that decides equality. *)
Class EqKey (K : Type) : Type := {
  keqb : K -> K -> bool;
  keqb_spec : forall x y : K, reflect (x = y) (keqb x y)
}.

#[export] Instance Z_EqKey : EqKey Z :=
  {| keqb := Z.eqb; keqb_spec := Z.eqb_spec |}.

#[export] Instance string_EqKey : EqKey string :=
  {| keqb := String.eqb; keqb_spec := String.eqb_spec |}.

(** ** Insertion-ordered dictionaries *)

Abbreviation dict K V := (list (K * V)).

Module Dict.
Section Ops.
Context {K V : Type} `{EqKey K}.

(** [d.get(k)] *)
Fixpoint get (k : K) (d : dict K V) : option V :=
  match d with
  | [] => None
  | (k', v) :: d' => if keqb k k' then Some v else get k d'
  end.

(** [k in d] *)
Definition mem (k : K) (d : dict K V) : bool :=
  match get k d with Some _ => true | None => false end.

(** [d.get(k, dflt)] *)
Definition get_default (k : K) (dflt : V) (d : dict K V) : V :=
  match get k d with Some v => v | None => dflt end.

(** [d[k] = v] *)
Fixpoint set (k : K) (v : V) (d : dict K V) : dict K V :=
  match d with
  | [] => [(k, v)]
  | (k', v') :: d' =>
      if keqb k k' then (k, v) :: d' else (k', v') :: set k v d'
  end.

Definition keys (d : dict K V) : list K := map fst d.

(** [{k: v for k, v in items}]: the pairs are inserted one after the
    other into an empty dictionary. *)
Definition of_items (l : list (K * V)) : dict K V :=
  fold_left (fun acc kv => set (fst kv) (snd kv) acc) l [].

End Ops.

(** The same keys in the same order, each value passed through [f]. *)
Definition map_values {K V W} (f : V -> W) (d : dict K V) : dict K W :=
  map (fun kv => (fst kv, f (snd kv))) d.

End Dict.

(** ** Exceptions and results *)

Inductive exn : Type :=
| FileNotFoundError
| OSError (msg : string)
| JSONDecodeError (msg : string)
| KeyError (key : string)
| ValueError (literal : string)
| AttributeError (attr : string)   (* attribute access on [None] *)
| HTTPException (msg : string)     (* [discord.HTTPException] and subclasses *)
| ConnectionError (msg : string).  (* a send failure that is no HTTPException *)

Inductive result (A : Type) : Type :=
| Ok (a : A)
| Raise (e : exn).
Arguments Ok {A} a.
Arguments Raise {A} e.

Definition bind {A B} (r : result A) (k : A -> result B) : result B :=
  match r with
  | Ok a => k a
  | Raise e => Raise e
  end.

Notation "x <- r ;; k" := (bind r (fun x => k))
  (at level 61, r at next level, right associativity).

(** A dictionary comprehension whose key or value expression may raise:
    the first exception aborts the whole comprehension. *)
Fixpoint comprehend {A K V} `{EqKey K}
    (f : A -> result (K * V)) (l : list A) (acc : dict K V)
    : result (dict K V) :=
  match l with
  | [] => Ok acc
  | a :: l' =>
      match f a with
      | Ok (k, v) => comprehend f l' (Dict.set k v acc)
      | Raise e => Raise e
      end
  end.

(** ** Python built-ins the program calls *)

Module Py.

(** [str(n)] for an [int]. *)
Definition str (n : Z) : string := NilZero.string_of_int (Z.to_int n).

(** [bool(s)] for a [str]: the empty string is falsy. *)
Definition truthy (s : string) : bool :=
  match s with
  | EmptyString => false
  | String _ _ => true
  end.

(** A [string] stands for a Python [str], one character for each code
    point; the code points it can hold are those below 256. *)

(** The white space that [int] passes over on both sides of a number: the
    space and the characters 9 to 13. The separators 28 to 31, which
    [str.isspace] takes as well, are not among them. *)
Definition is_space (c : ascii) : bool :=
  let n := N_of_ascii c in
  (N.eqb n 32 || (N.leb 9 n && N.leb n 13))%bool.

(** [str.isascii] *)
Fixpoint is_ascii (s : string) : bool :=
  match s with
  | EmptyString => true
  | String c r => (N.ltb (N_of_ascii c) 128 && is_ascii r)%bool
  end.

(** What [int] does first with a [str] that is not ASCII. A character below
    127 stays. White space of Unicode, which from 127 to 255 is the next
    line character 133 and the no-break space 160, becomes a space. A
    decimal digit of Unicode would become its ASCII digit; there is none
    from 127 to 255. At any other character the text is cut and ends in a
    question mark. *)
Fixpoint to_ascii_decimal (s : string) : string :=
  match s with
  | EmptyString => EmptyString
  | String c r =>
      let n := N_of_ascii c in
      if N.ltb n 127 then String c (to_ascii_decimal r)
      else if (N.eqb n 133 || N.eqb n 160)%bool
           then String " " (to_ascii_decimal r)
           else "?"
  end.

(** The value of an ASCII decimal digit. *)
Definition digit_of (c : ascii) : option Z :=
  let n := Z.of_N (N_of_ascii c) in
  if (Z.leb 48 n && Z.leb n 57)%bool then Some (n - 48) else None.

Fixpoint skip_leading (s : string) : string :=
  match s with
  | EmptyString => EmptyString
  | String c r => if is_space c then skip_leading r else s
  end.

Fixpoint skip_trailing (s : string) : string :=
  match s with
  | EmptyString => EmptyString
  | String c r =>
      match skip_trailing r with
      | EmptyString => if is_space c then EmptyString else String c EmptyString
      | r' => String c r'
      end
  end.

(** Decimal digits, a single underscore allowed between two digits.
    [after_digit] tells whether the previous character was a digit. *)
Fixpoint int_digits (s : string) (acc : Z) (after_digit : bool) : option Z :=
  match s with
  | EmptyString => if after_digit then Some acc else None
  | String c r =>
      match digit_of c with
      | Some d => int_digits r (10 * acc + d) true
      | None =>
          if (Ascii.eqb c "_" && after_digit)%bool
          then int_digits r acc false
          else None
      end
  end.

(** [int(s)] for a [str], in base ten: white space on both sides, an
    optional sign, then digits. [None] stands for [ValueError]. The
    interpreter's limit on the length of a number that is converted
    ([sys.set_int_max_str_digits]) is left out: an [int] here is any
    integer, and so is what [int] and [str] convert. *)
Definition int (s : string) : option Z :=
  let s := if is_ascii s then s else to_ascii_decimal s in
  match skip_trailing (skip_leading s) with
  | EmptyString => None
  | String c r =>
      if Ascii.eqb c "-" then option_map Z.opp (int_digits r 0 false)
      else if Ascii.eqb c "+" then int_digits r 0 false
      else int_digits (String c r) 0 false
  end.

(** [s.replace(old, new)]: the occurrences of [old] are taken from left to
    right and do not overlap. [skip] counts the characters of the current
    occurrence that are still to be passed over. *)
Fixpoint replace_from (old new : string) (skip : nat) (s : string) : string :=
  match s with
  | EmptyString => EmptyString
  | String c r =>
      match skip with
      | S k => replace_from old new k r
      | O =>
          if String.prefix old s
          then new +++ replace_from old new (Nat.pred (String.length old)) r
          else String c (replace_from old new O r)
      end
  end.

(** With an empty [old], Python puts [new] before every character and at
    the end. *)
Fixpoint replace_empty (new s : string) : string :=
  match s with
  | EmptyString => new
  | String c r => new +++ String c (replace_empty new r)
  end.

Definition replace (old new s : string) : string :=
  match old with
  | EmptyString => replace_empty new s
  | String _ _ => replace_from old new O s
  end.

End Py.

(** ** Data model *)

(** What the program reads of a guild member, a guild, a channel, a user
    and a message. *)
Record Member : Type := {
  member_id : Z;
  member_display_name : string
}.

Record Guild : Type := {
  guild_id : Z;
  guild_name : string;
  guild_members : list Member
}.

(** [guild.get_member(user_id)] *)
Definition get_member (g : Guild) (uid : Z) : option Member :=
  find (fun m => Z.eqb (member_id m) uid) (guild_members g).

Record Channel : Type := {
  channel_id : Z;
  channel_guild : Guild
}.

(** [channel.mention] *)
Definition channel_mention (c : Channel) : string :=
  "<#" +++ Py.str (channel_id c) +++ ">".

(** [user_str] is [str(user)], which the library writes from the account
    name and, where the account has one, its discriminator; it is not the
    display name. *)
Record User : Type := {
  user_id : Z;
  user_display_name : string;
  user_str : string
}.

(** [message.guild] is [None] for a direct message; of [message.channel]
    only the id is read. *)
Record Message : Type := {
  author : User;
  guild : option Guild;
  channel : Z;
  content : string;
  mentions : list User
}.

(** The three module-level dictionaries. A channel slot holds what
    [bot.get_channel] returned, which is [None] for an id the client does
    not know. *)
Record State : Type := {
  group_mappings : dict string (dict Z (option Channel));
  relay_enabled : dict string (dict Z bool);
  server_groups : dict Z string
}.

Definition empty_state : State :=
  {| group_mappings := []; relay_enabled := []; server_groups := [] |}.

(** The [data] dictionary that [save_settings] builds. *)
Record Snapshot : Type := {
  snap_group_mappings : dict string (dict Z Z);
  snap_relay_enabled : dict string (dict Z bool);
  snap_server_groups : dict Z string
}.

(** A parsed settings document: every JSON object has string keys, a
    channel is stored by its id, a flag as a boolean. A section is [None]
    when the document has no such key. *)
Record Document : Type := {
  doc_group_mappings : option (dict string (dict string Z));
  doc_relay_enabled : option (dict string (dict string bool));
  doc_server_groups : option (dict string string)
}.

(** What [open(SETTINGS_FILE)] followed by [json.load] meets: no file; a
    file that cannot be read or decoded into an object, so that [e] is
    raised before any table is assigned; or a document. *)
Inductive FileContent : Type :=
| FileMissing
| FileCorrupt (e : exn)
| FileDoc (d : Document).

(** How the next write to the settings file goes: [DiskOpenFails] raises
    in [open] and leaves the file as it was, [DiskDumpFails] raises in
    [json.dump] after [open] has truncated the file. *)
Inductive Disk : Type :=
| DiskOk
| DiskOpenFails (e : exn)
| DiskDumpFails (e : exn).

(** The client the program runs in: its own user, the channels it knows,
    and the disk. *)
Record Env : Type := {
  bot_user : User;
  bot_channels : list Channel;
  disk : Disk
}.

(** [bot.get_channel(cid)] *)
Definition get_channel (env : Env) (cid : Z) : option Channel :=
  find (fun c => Z.eqb (channel_id c) cid) (bot_channels env).

(** The tables in memory and the settings file on disk. *)
Record World : Type := {
  mem : State;
  file : FileContent
}.

Definition initial_world : World :=
  {| mem := empty_state; file := FileMissing |}.

(** Lines written to the console or the log. *)
Inductive Output : Type :=
| Print (line : string)
| PrintExn (prefix : string) (e : exn)
| LogError (prefix : string) (e : exn).

(** ** Settings snapshot *)

(** [data[key]] *)
Definition section {A} (key : string) (s : option A) : result A :=
  match s with
  | Some a => Ok a
  | None => Raise (KeyError key)
  end.

(** [int(gid)] on a key of the document *)
Definition int_key (gid : string) : result Z :=
  match Py.int gid with
  | Some n => Ok n
  | None => Raise (ValueError gid)
  end.

(** [{int(gid): f(x) for gid, x in v.items()}] *)
Definition load_inner {A B} (f : A -> B) (v : dict string A)
    : result (dict Z B) :=
  comprehend (fun kv => gid <- int_key (fst kv) ;; Ok (gid, f (snd kv))) v [].

(** [{k: {int(gid): f(x) ...} for k, v in d.items()}] *)
Definition load_outer {A B} (f : A -> B) (d : dict string (dict string A))
    : result (dict string (dict Z B)) :=
  comprehend (fun kv => inner <- load_inner f (snd kv) ;; Ok (fst kv, inner)) d [].

Definition load_group_mappings (env : Env) (d : Document)
    : result (dict string (dict Z (option Channel))) :=
  s <- section "group_mappings" (doc_group_mappings d) ;;
  load_outer (get_channel env) s.

Definition load_relay_enabled (d : Document)
    : result (dict string (dict Z bool)) :=
  s <- section "relay_enabled" (doc_relay_enabled d) ;;
  load_outer (fun status => status) s.

Definition load_server_groups (d : Document) : result (dict Z string) :=
  s <- section "server_groups" (doc_server_groups d) ;;
  load_inner (fun group_id => group_id) s.

Definition set_group_mappings (gm : dict string (dict Z (option Channel)))
    (st : State) : State :=
  {| group_mappings := gm;
     relay_enabled := relay_enabled st;
     server_groups := server_groups st |}.

Definition set_relay_enabled (re : dict string (dict Z bool))
    (st : State) : State :=
  {| group_mappings := group_mappings st;
     relay_enabled := re;
     server_groups := server_groups st |}.

Definition set_server_groups (sg : dict Z string) (st : State) : State :=
  {| group_mappings := group_mappings st;
     relay_enabled := relay_enabled st;
     server_groups := sg |}.

(** [load_settings]: the three globals are assigned one after the other
    inside the [try], so an exception raised by a later assignment leaves
    the earlier ones done. *)
Definition load_settings (env : Env) (fc : FileContent) (st : State)
    : State * list Output :=
  match fc with
  | FileMissing =>
      (st, [Print "Settings file not found. Starting with empty settings."])
  | FileCorrupt e => (st, [PrintExn "Error loading settings: " e])
  | FileDoc d =>
      match load_group_mappings env d with
      | Raise e => (st, [PrintExn "Error loading settings: " e])
      | Ok gm =>
          let st1 := set_group_mappings gm st in
          match load_relay_enabled d with
          | Raise e => (st1, [PrintExn "Error loading settings: " e])
          | Ok re =>
              let st2 := set_relay_enabled re st1 in
              match load_server_groups d with
              | Raise e => (st2, [PrintExn "Error loading settings: " e])
              | Ok sg =>
                  (set_server_groups sg st2,
                   [Print "Settings loaded successfully."])
              end
          end
      end
  end.

(** [channel.id], where [channel] may be [None] *)
Definition id_of (c : option Channel) : result Z :=
  match c with
  | Some ch => Ok (channel_id ch)
  | None => Raise (AttributeError "id")
  end.

(** [{gid: channel.id for gid, channel in v.items()}] *)
Definition save_ids (v : dict Z (option Channel)) : result (dict Z Z) :=
  comprehend (fun gc => cid <- id_of (snd gc) ;; Ok (fst gc, cid)) v [].

(** [{gid: status for gid, status in v.items()}] *)
Definition save_flags (v : dict Z bool) : result (dict Z bool) :=
  comprehend (fun gs => Ok (fst gs, snd gs)) v [].

(** [{k: inner(v) for k, v in d.items()}] *)
Definition save_outer {A B} (inner : dict Z A -> result (dict Z B))
    (d : dict string (dict Z A)) : result (dict string (dict Z B)) :=
  comprehend (fun kv => i <- inner (snd kv) ;; Ok (fst kv, i)) d [].

(** The [data] dictionary of [save_settings]. *)
Definition save_data (st : State) : result Snapshot :=
  gm <- save_outer save_ids (group_mappings st) ;;
  re <- save_outer save_flags (relay_enabled st) ;;
  Ok {| snap_group_mappings := gm;
        snap_relay_enabled := re;
        snap_server_groups := server_groups st |}.

(** [json.dump] writes an [int] key as its decimal string. *)
Definition dump_keys {V} (d : dict Z V) : dict string V :=
  map (fun kv => (Py.str (fst kv), snd kv)) d.

Definition json_dump (s : Snapshot) : Document :=
  {| doc_group_mappings :=
       Some (map (fun kv => (fst kv, dump_keys (snd kv))) (snap_group_mappings s));
     doc_relay_enabled :=
       Some (map (fun kv => (fst kv, dump_keys (snd kv))) (snap_relay_enabled s));
     doc_server_groups := Some (dump_keys (snap_server_groups s)) |}.

(** What a relay task does, in the order it does it. *)
Inductive Event : Type :=
| ESend (target : Channel) (text : string)
| ESleep (seconds : Z)
| ELog (o : Output).

(** What a handler leaves behind: the world, whether it returned or
    raised, the texts sent with [ctx.send], the console, and one event
    trace per relay task it started. *)
Record Run : Type := {
  run_world : World;
  run_outcome : result unit;
  run_replies : list string;
  run_console : list Output;
  run_tasks : list (list Event)
}.

Definition returns (w : World) : Run :=
  {| run_world := w; run_outcome := Ok tt;
     run_replies := []; run_console := []; run_tasks := [] |}.

Definition raises (e : exn) (w : World) : Run :=
  {| run_world := w; run_outcome := Raise e;
     run_replies := []; run_console := []; run_tasks := [] |}.

(** [await ctx.send(text)] as the last statement of a command. *)
Definition replies (text : string) (w : World) : Run :=
  {| run_world := w; run_outcome := Ok tt;
     run_replies := [text]; run_console := []; run_tasks := [] |}.

Definition set_mem (st : State) (w : World) : World :=
  {| mem := st; file := file w |}.

Definition set_file (fc : FileContent) (w : World) : World :=
  {| mem := mem w; file := fc |}.

(** [save_settings] has no handler of its own: an exception raised while
    building [data], in [open] or in [json.dump] goes to the caller. *)
Definition save_settings (env : Env) (w : World) : Run :=
  match save_data (mem w) with
  | Raise e => raises e w
  | Ok data =>
      match disk env with
      | DiskOpenFails e => raises e w
      | DiskDumpFails e =>
          raises e (set_file (FileCorrupt (JSONDecodeError "truncated")) w)
      | DiskOk =>
          {| run_world := set_file (FileDoc (json_dump data)) w;
             run_outcome := Ok tt;
             run_replies := [];
             run_console := [Print "Settings saved successfully."];
             run_tasks := [] |}
      end
  end.

(** [on_ready] *)
Definition on_ready (env : Env) (w : World) : Run :=
  let (st, out) := load_settings env (file w) (mem w) in
  {| run_world := set_mem st w;
     run_outcome := Ok tt;
     run_replies := [];
     run_console :=
       out ++ [Print (user_str (bot_user env) +++ " is connected and ready.")];
     run_tasks := [] |}.

(** ** Commands *)

(** The command context; the commands that touch the tables are guarded by
    [has_permissions], which lets them run in a guild only. *)
Record Ctx : Type := {
  ctx_guild : Guild
}.

(** A command that saves and then answers: when [save_settings] raises,
    the answer is never sent. *)
Definition save_then_reply (env : Env) (text : string) (w : World) : Run :=
  let s := save_settings env w in
  match run_outcome s with
  | Raise _ => s
  | Ok _ =>
      {| run_world := run_world s; run_outcome := Ok tt;
         run_replies := [text]; run_console := run_console s;
         run_tasks := [] |}
  end.

(** [set_group] *)
Definition set_group (env : Env) (ctx : Ctx) (group_id : string) (w : World)
    : Run :=
  let st := mem w in
  let sg := Dict.set (guild_id (ctx_guild ctx)) group_id (server_groups st) in
  save_then_reply env
    ("Group ID set to '" +++ group_id +++
     "' for this server. Use `/setsharedchannel` to configure a shared channel for this group.")
    (set_mem (set_server_groups sg st) w).

(** [d[g][k] = v] *)
Definition setitem2 {V} (g : string) (k : Z) (v : V)
    (d : dict string (dict Z V)) : result (dict string (dict Z V)) :=
  match Dict.get g d with
  | Some inner => Ok (Dict.set g (Dict.set k v inner) d)
  | None => Raise (KeyError g)
  end.

(** [set_shared_channel] *)
Definition set_shared_channel (env : Env) (ctx : Ctx) (ch : Channel)
    (w : World) : Run :=
  let st := mem w in
  let gid := guild_id (ctx_guild ctx) in
  match Dict.get gid (server_groups st) with
  | None =>
      replies "Please set a group ID for this server first using `/setgroup <group_id>`." w
  | Some group_id =>
      if negb (Py.truthy group_id) then
        replies "Please set a group ID for this server first using `/setgroup <group_id>`." w
      else
        let st1 :=
          if Dict.mem group_id (group_mappings st) then st
          else set_relay_enabled (Dict.set group_id [] (relay_enabled st))
                 (set_group_mappings (Dict.set group_id [] (group_mappings st)) st) in
        match setitem2 group_id gid (Some ch) (group_mappings st1) with
        | Raise e => raises e (set_mem st1 w)
        | Ok gm =>
            let st2 := set_group_mappings gm st1 in
            match setitem2 group_id gid true (relay_enabled st2) with
            | Raise e => raises e (set_mem st2 w)
            | Ok re =>
                save_then_reply env
                  ("Shared channel set to " +++ channel_mention ch +++
                   " for group '" +++ group_id +++ "' in this server.")
                  (set_mem (set_relay_enabled re st2) w)
            end
        end
  end.

Definition not_set_up : string :=
  "This server is not set up in a group or shared channel. Use `/setgroup` and `/setsharedchannel` to configure it first.".

(** [group_id and group_id in relay_enabled and ctx.guild.id in
    relay_enabled[group_id]], the test of [enable_relay] and
    [disable_relay]; it yields the group. *)
Definition relay_slot (st : State) (gid : Z) : option string :=
  match Dict.get gid (server_groups st) with
  | None => None
  | Some group_id =>
      if Py.truthy group_id then
        match Dict.get group_id (relay_enabled st) with
        | Some flags => if Dict.mem gid flags then Some group_id else None
        | None => None
        end
      else None
  end.

(** [enable_relay] and [disable_relay] differ in the flag they store and in
    one word of the answer. *)
Definition switch_relay (flag : bool) (env : Env) (ctx : Ctx) (w : World)
    : Run :=
  let st := mem w in
  let gid := guild_id (ctx_guild ctx) in
  match relay_slot st gid with
  | Some group_id =>
      match setitem2 group_id gid flag (relay_enabled st) with
      | Raise e => raises e w
      | Ok re =>
          save_then_reply env
            ("Message relaying has been " +++
             (if flag then "enabled" else "disabled") +++
             " for group '" +++ group_id +++ "'.")
            (set_mem (set_relay_enabled re st) w)
      end
  | None => replies not_set_up w
  end.

Definition enable_relay : Env -> Ctx -> World -> Run := switch_relay true.
Definition disable_relay : Env -> Ctx -> World -> Run := switch_relay false.

(** [group_id and group_id in group_mappings and gid in
    group_mappings[group_id]], the test of [status] and [on_message]; it
    yields the group and the stored channel slot. *)
Definition mapping_slot (st : State) (gid : Z)
    : option (string * option Channel) :=
  match Dict.get gid (server_groups st) with
  | None => None
  | Some group_id =>
      if Py.truthy group_id then
        match Dict.get group_id (group_mappings st) with
        | Some chans =>
            match Dict.get gid chans with
            | Some slot => Some (group_id, slot)
            | None => None
            end
        | None => None
        end
      else None
  end.

(** [relay_enabled[group_id].get(gid, False)] *)
Definition enabled_flag (st : State) (group_id : string) (gid : Z)
    : result bool :=
  match Dict.get group_id (relay_enabled st) with
  | Some flags => Ok (Dict.get_default gid false flags)
  | None => Raise (KeyError group_id)
  end.

Definition status_word (b : bool) : string :=
  if b then "enabled" else "disabled".

(** [status] *)
Definition status (ctx : Ctx) (w : World) : Run :=
  let st := mem w in
  let gid := guild_id (ctx_guild ctx) in
  match mapping_slot st gid with
  | Some (group_id, shared_channel) =>
      match enabled_flag st group_id gid with
      | Raise e => raises e w
      | Ok b =>
          match shared_channel with
          | None => raises (AttributeError "mention") w
          | Some ch =>
              replies ("Relaying is currently " +++ status_word b +++
                       ". Shared channel for group '" +++ group_id +++
                       "' is " +++ channel_mention ch +++ ".") w
          end
      end
  | None =>
      replies "No shared channel is set for this server in the specified group." w
  end.

(** [ping] *)
Definition ping (w : World) : Run := replies "Pong!" w.


Definition newline : string := String (ascii_of_nat 10) EmptyString.

(** The loop of [display] over [group_mappings[group_id].items()]. *)
Fixpoint display_lines (st : State) (group_id : string)
    (items : list (Z * option Channel)) (acc : string) : result string :=
  match items with
  | [] => Ok acc
  | (gid, slot) :: rest =>
      b <- enabled_flag st group_id gid ;;
      match slot with
      | None => Raise (AttributeError "guild")
      | Some ch =>
          display_lines st group_id rest
            (acc +++ "- **Server**: " +++ guild_name (channel_guild ch) +++
             " | **Channel**: " +++ channel_mention ch +++
             " | **Status**: " +++ status_word b +++ newline)
      end
  end.

(** [display] *)
Definition display (ctx : Ctx) (w : World) : Run :=
  let st := mem w in
  let nothing :=
    replies "No channels are currently connected for message relaying in the group for this server." w in
  match Dict.get (guild_id (ctx_guild ctx)) (server_groups st) with
  | None => nothing
  | Some group_id =>
      if negb (Py.truthy group_id) then nothing
      else
        match Dict.get group_id (group_mappings st) with
        | None | Some [] => nothing
        | Some chans =>
            match display_lines st group_id chans
                    ("**Connected Channels for Group '" +++ group_id +++
                     "':**" +++ newline +++ newline) with
            | Raise e => raises e w
            | Ok text => replies text w
            end
        end
  end.

(** ** Relay *)

(** How [target_channel.send(content)] ends. *)
Inductive SendResult : Type :=
| Sent
| SendFails (e : exn).

Definition Transport : Type := Channel -> string -> SendResult.

Definition is_http (e : exn) : bool :=
  match e with
  | HTTPException _ => true
  | _ => false
  end.

(** [relay_message]: the pause stands after the send inside the [try], and
    the handler takes [discord.HTTPException] only. *)
Definition relay_message (send : Transport) (target_channel : Channel)
    (text : string) : result unit * list Event :=
  match send target_channel text with
  | Sent => (Ok tt, [ESend target_channel text; ESleep 1])
  | SendFails e =>
      if is_http e then
        (Ok tt, [ESend target_channel text;
                 ELog (LogError "Failed to relay message: " e)])
      else (Raise e, [ESend target_channel text])
  end.

(** [f"<@{user.id}>"] *)
Definition mention_token (uid : Z) : string := "<@" +++ Py.str uid +++ ">".

(** [format_mentions], the closure of [on_message] over [message]. *)
Definition format_mentions (message : Message) (content : string)
    (target_guild : Guild) : string :=
  fold_left
    (fun formatted_content user =>
       match get_member target_guild (user_id user) with
       | Some member =>
           Py.replace (mention_token (user_id user))
             ("@" +++ member_display_name member) formatted_content
       | None => formatted_content
       end)
    (mentions message) content.

(** The text of one relayed copy. *)
Definition relay_text (message : Message) (origin : Guild)
    (target_channel : Channel) : string :=
  "[" +++ guild_name origin +++ "] " +++
  user_display_name (author message) +++ ": " +++
  format_mentions message (content message) (channel_guild target_channel).

(** The list comprehension that builds [relay_tasks]: the filter is
    evaluated first, then the arguments of [relay_message], where reading
    [target_channel.guild] raises for an empty slot. *)
Fixpoint relay_tasks (message : Message) (origin : Guild)
    (flags : dict Z bool) (items : list (Z * option Channel))
    : result (list (Channel * string)) :=
  match items with
  | [] => Ok []
  | (target_guild_id, slot) :: rest =>
      if (negb (Z.eqb target_guild_id (guild_id origin))
          && Dict.get_default target_guild_id false flags)%bool
      then
        match slot with
        | None => Raise (AttributeError "guild")
        | Some target_channel =>
            tasks <- relay_tasks message origin flags rest ;;
            Ok ((target_channel, relay_text message origin target_channel)
                :: tasks)
        end
      else relay_tasks message origin flags rest
  end.

Definition first_raise (rs : list (result unit)) : result unit :=
  match find (fun r => match r with Raise _ => true | Ok _ => false end) rs with
  | Some r => r
  | None => Ok tt
  end.

(** [asyncio.gather] over [relay_tasks]: every task is started and runs to its
    end whatever the others do; the call raises when a task raised. Which
    exception comes out when several tasks raise depends on their timing;
    the model takes the first in task order. *)
Definition gather (send : Transport) (tasks : list (Channel * string))
    (w : World) : Run :=
  let runs := map (fun t => relay_message send (fst t) (snd t)) tasks in
  {| run_world := w;
     run_outcome := first_raise (map fst runs);
     run_replies := [];
     run_console := [];
     run_tasks := map snd runs |}.

(** The relay part of [on_message], after [process_commands]. *)
Definition handle (send : Transport) (message : Message) (w : World) : Run :=
  let st := mem w in
  match guild message with
  | None => raises (AttributeError "id") w
  | Some origin =>
      match mapping_slot st (guild_id origin) with
      | None => returns w
      | Some (group_id, origin_channel) =>
          match enabled_flag st group_id (guild_id origin) with
          | Raise e => raises e w
          | Ok false => returns w
          | Ok true =>
              match origin_channel with
              | None => raises (AttributeError "id") w
              | Some oc =>
                  if Z.eqb (channel message) (channel_id oc) then
                    match relay_tasks message origin
                            (Dict.get_default group_id [] (relay_enabled st))
                            (Dict.get_default group_id [] (group_mappings st))
                    with
                    | Raise e => raises e w
                    | Ok tasks => gather send tasks w
                    end
                  else returns w
              end
          end
      end
  end.

(** The command framework, which is not part of the program: it may run a
    command of the message, and hands back the world with what the command
    answered and printed. *)
Definition CommandFramework : Type :=
  Message -> World -> World * list string * list Output.

(** [on_message] *)
Definition on_message (process_commands : CommandFramework) (env : Env)
    (send : Transport) (message : Message) (w : World) : Run :=
  if Z.eqb (user_id (author message)) (user_id (bot_user env)) then returns w
  else
    let '(w1, answers, console) := process_commands message w in
    let r := handle send message w1 in
    {| run_world := run_world r;
       run_outcome := run_outcome r;
       run_replies := answers ++ run_replies r;
       run_console := console ++ run_console r;
       run_tasks := run_tasks r |}.

(** ** Reachable worlds *)

(** One step of the running program: the client becomes ready, the process
    restarts and loses its memory, or an administrator runs a command that
    writes to the tables. The client, its channels and the disk may differ
    from step to step. *)
Inductive step : World -> World -> Prop :=
| step_on_ready env w :
    step w (run_world (on_ready env w))
| step_restart w :
    step w (set_mem empty_state w)
| step_set_group env ctx group_id w :
    step w (run_world (set_group env ctx group_id w))
| step_set_shared_channel env ctx ch w :
    step w (run_world (set_shared_channel env ctx ch w))
| step_enable_relay env ctx w :
    step w (run_world (enable_relay env ctx w))
| step_disable_relay env ctx w :
    step w (run_world (disable_relay env ctx w)).

Inductive reachable : World -> Prop :=
| reachable_initial : reachable initial_world
| reachable_step w w' : reachable w -> step w w' -> reachable w'.

(** ** The tables as the specification reads them *)

(** The binding of a server in a group: the channel slot stored in
    [group_mappings] and the flag of [relay_enabled], [False] when the
    flag is missing. *)
Definition get_binding (st : State) (group_id : string) (gid : Z)
    : option (option Channel * bool) :=
  match Dict.get group_id (group_mappings st) with
  | None => None
  | Some chans =>
      match Dict.get gid chans with
      | None => None
      | Some slot =>
          Some (slot,
                Dict.get_default gid false
                  (Dict.get_default group_id [] (relay_enabled st)))
      end
  end.

(** [GroupRegistry.groupOf] *)
Definition group_of (st : State) (gid : Z) : option string :=
  Dict.get gid (server_groups st).

(** [ChannelBindingTable.listBindings] *)
Definition list_bindings (st : State) (group_id : string)
    : list (Z * option Channel * bool) :=
  map (fun kv =>
         (fst kv, snd kv,
          Dict.get_default (fst kv) false
            (Dict.get_default group_id [] (relay_enabled st))))
      (Dict.get_default group_id [] (group_mappings st)).


(** ** Well-formed tables *)

(** The keys of a two-level table, level by level. *)
Definition shape {V} (d : dict string (dict Z V)) : dict string (list Z) :=
  Dict.map_values Dict.keys d.

(** No key occurs twice, at either level. *)
Definition unique_keys2 {V} (d : dict string (dict Z V)) : Prop :=
  NoDup (Dict.keys d) /\ Forall (fun kv => NoDup (Dict.keys (snd kv))) d.

(** The tables of a running program: they are dictionaries, the two
    binding tables have their keys in common, and no binding lives under
    the empty group id. *)
Record consistent (st : State) : Prop := {
  cons_mappings : unique_keys2 (group_mappings st);
  cons_groups : NoDup (Dict.keys (server_groups st));
  cons_shape : shape (group_mappings st) = shape (relay_enabled st);
  cons_named : ~ In "" (Dict.keys (group_mappings st))
}.

Record consistent_snapshot (s : Snapshot) : Prop := {
  snap_mappings : unique_keys2 (snap_group_mappings s);
  snap_groups : NoDup (Dict.keys (snap_server_groups s));
  snap_shape : shape (snap_group_mappings s) = shape (snap_relay_enabled s);
  snap_named : ~ In "" (Dict.keys (snap_group_mappings s))
}.

(** A settings file that is a document was written by [save_settings]. *)
Definition saved_file (fc : FileContent) : Prop :=
  forall x, fc = FileDoc x ->
  exists s, x = json_dump s /\ consistent_snapshot s.

(** What every reachable world satisfies. *)
Definition world_ok (w : World) : Prop :=
  consistent (mem w) /\ saved_file (file w).

(** The tables that loading the dump of a snapshot yields. *)
Definition state_of_snapshot (env : Env) (s : Snapshot) : State :=
  {| group_mappings :=
       Dict.map_values (Dict.map_values (get_channel env)) (snap_group_mappings s);
     relay_enabled := snap_relay_enabled s;
     server_groups := snap_server_groups s |}.

(** Every channel id stored in the document is known to the client. *)
Definition resolves (env : Env) (x : Document) : bool :=
  match doc_group_mappings x with
  | None => true
  | Some gm =>
      forallb
        (fun kv =>
           forallb
             (fun gc =>
                match get_channel env (snd gc) with
                | Some _ => true
                | None => false
                end)
             (snd kv))
        gm
  end.


(** ** The target set as the specification reads it *)

(** The bindings of the group other than the origin's that are enabled. *)
Definition target_set (st : State) (group_id : string) (origin_id : Z)
    : list (Z * option Channel * bool) :=
  filter (fun b => (negb (Z.eqb (fst (fst b)) origin_id) && snd b)%bool)
         (list_bindings st group_id).

(** The [(channel, text)] pairs a task trace sent. *)
Fixpoint sends_of (trace : list Event) : list (Channel * string) :=
  match trace with
  | [] => []
  | ESend c t :: rest => (c, t) :: sends_of rest
  | _ :: rest => sends_of rest
  end.

(** Whether a trace pauses for [seconds] somewhere after its first send. *)
Fixpoint pauses_after_send (seconds : Z) (trace : list Event) : bool :=
  match trace with
  | [] => false
  | ESend _ _ :: rest =>
      existsb (fun e => match e with
                        | ESleep s => Z.eqb s seconds
                        | _ => false
                        end) rest
  | _ :: rest => pauses_after_send seconds rest
  end.

(** ** The mention rewriter as the specification reads it *)

(** The replacements for a destination guild: the mention token of every
    mentioned user the guild resolves, with "@" and the display name. *)
Definition replacements (message : Message) (target_guild : Guild)
    : list (string * string) :=
  flat_map
    (fun user =>
       match get_member target_guild (user_id user) with
       | Some member =>
           [(mention_token (user_id user), "@" +++ member_display_name member)]
       | None => []
       end)
    (mentions message).

(** One pass over the body: where a token of the table starts, its
    replacement is written and the token passed over; any other character
    is copied. Nothing that was written is read again. *)
Fixpoint rewrite_from (table : list (string * string)) (skip : nat)
    (body : string) : string :=
  match body with
  | EmptyString => EmptyString
  | String c r =>
      match skip with
      | S k => rewrite_from table k r
      | O =>
          match find (fun tn => String.prefix (fst tn) body) table with
          | Some (token, new) =>
              new +++ rewrite_from table (Nat.pred (String.length token)) r
          | None => String c (rewrite_from table O r)
          end
      end
  end.

Definition rewrite_spec (message : Message) (body : string)
    (target_guild : Guild) : string :=
  rewrite_from (replacements message target_guild) O body.

(** ** Display names that cannot pass for a piece of a token *)

(** Whether the character [c] occurs in [s]. *)
Fixpoint occurs (c : ascii) (s : string) : bool :=
  match s with
  | EmptyString => false
  | String a r => (Ascii.eqb a c || occurs c r)%bool
  end.

Definition is_digit (c : ascii) : bool :=
  match Py.digit_of c with
  | Some _ => true
  | None => false
  end.

Fixpoint all_digits (s : string) : bool :=
  match s with
  | EmptyString => true
  | String c r => (is_digit c && all_digits r)%bool
  end.

(** After its leading digits, if any, [s] goes on with a character other
    than ">". *)
Fixpoint leaves_digits (s : string) : bool :=
  match s with
  | EmptyString => false
  | String c r =>
      if is_digit c then leaves_digits r else negb (Ascii.eqb c ">")
  end.

(** A display name is inert when it has no "<" and is neither a number nor
    a number followed by ">": then "@" and the name, put anywhere in a
    text, neither contain the start of a mention token nor complete one. *)
Definition inert (name : string) : bool :=
  (negb (occurs "<" name) && leaves_digits name)%bool.

(** A mention token: "<@", decimal digits, ">". *)
Definition is_token (t : string) : Prop :=
  exists ds, all_digits ds = true /\ t = String "<" (String "@" (ds +++ ">")).

(** What is written for a token: "@" and an inert display name. *)
Definition is_inert_text (n : string) : Prop :=
  exists name, inert name = true /\ n = String "@" name.

(** ** A small deployment *)

(** Three guilds of one group, their channels, and a client that has lost
    sight of the third channel. *)
Module Example.

Definition guild_a : Guild :=
  {| guild_id := 1; guild_name := "GuildA"; guild_members := [] |}.

Definition guild_b : Guild :=
  {| guild_id := 2; guild_name := "GuildB";
     guild_members :=
       [ {| member_id := 123; member_display_name := "Bob" |} ] |}.

Definition guild_c : Guild :=
  {| guild_id := 3; guild_name := "GuildC"; guild_members := [] |}.

Definition chan_a : Channel := {| channel_id := 11; channel_guild := guild_a |}.
Definition chan_b : Channel := {| channel_id := 22; channel_guild := guild_b |}.
Definition chan_c : Channel := {| channel_id := 33; channel_guild := guild_c |}.

Definition canary : User :=
  {| user_id := 999; user_display_name := "Canary";
     user_str := "Canary#4821" |}.

Definition env_all : Env :=
  {| bot_user := canary; bot_channels := [chan_a; chan_b; chan_c];
     disk := DiskOk |}.

Definition env_lost_c : Env :=
  {| bot_user := canary; bot_channels := [chan_a; chan_b]; disk := DiskOk |}.

Definition ctx_a : Ctx := {| ctx_guild := guild_a |}.
Definition ctx_b : Ctx := {| ctx_guild := guild_b |}.
Definition ctx_c : Ctx := {| ctx_guild := guild_c |}.

(** The administrators of the three guilds join group "alpha" and bind
    their channels, one command after the other. *)
Definition world_1 : World :=
  run_world (set_group env_all ctx_a "alpha" initial_world).
Definition world_2 : World :=
  run_world (set_shared_channel env_all ctx_a chan_a world_1).
Definition world_3 : World :=
  run_world (set_group env_all ctx_b "alpha" world_2).
Definition world_4 : World :=
  run_world (set_shared_channel env_all ctx_b chan_b world_3).
Definition world_5 : World :=
  run_world (set_group env_all ctx_c "alpha" world_4).
Definition world_bound : World :=
  run_world (set_shared_channel env_all ctx_c chan_c world_5).

(** The process restarts. *)
Definition world_restarted : World := set_mem empty_state world_bound.

(** It loads the settings while channel 33 is gone. *)
Definition world_reloaded : World :=
  run_world (on_ready env_lost_c world_restarted).

(** Guild B switched off. *)
Definition world_b_off : World :=
  run_world (disable_relay env_all ctx_b world_bound).

Definition hello : Message :=
  {| author := {| user_id := 5; user_display_name := "X";
                  user_str := "x#0001" |};
     guild := Some guild_a;
     channel := 11;
     content := "hello <@123>";
     mentions := [ {| user_id := 123; user_display_name := "bobby";
                      user_str := "bobby#0001" |} ] |}.

(** The same text posted by the relay itself. *)
Definition echo : Message :=
  {| author := canary;
     guild := Some guild_a;
     channel := 11;
     content := "[GuildB] X: hello";
     mentions := [] |}.

Definition send_ok : Transport := fun _ _ => Sent.

(** Sends to channel 22 are refused. *)
Definition send_b_down : Transport :=
  fun c _ =>
    if Z.eqb (channel_id c) 22 then SendFails (HTTPException "503")
    else Sent.

Definition no_commands : CommandFramework := fun _ w => (w, [], []).

(** A settings document without its "relay_enabled" section. *)
Definition doc_no_flags : Document :=
  {| doc_group_mappings := Some [("alpha", [("1", 11)])];
     doc_relay_enabled := None;
     doc_server_groups := Some [("1", "alpha")] |}.

(** Two members who carry each other's mention token as display name. *)
Definition guild_tricky : Guild :=
  {| guild_id := 4; guild_name := "GuildD";
     guild_members :=
       [ {| member_id := 1; member_display_name := "<@2>" |};
         {| member_id := 2; member_display_name := "Bob" |} ] |}.

Definition two_mentions : Message :=
  {| author := {| user_id := 5; user_display_name := "X";
                  user_str := "x#0001" |};
     guild := Some guild_a;
     channel := 11;
     content := "<@1> <@2>";
     mentions := [ {| user_id := 1; user_display_name := "one";
                      user_str := "one#0001" |};
                   {| user_id := 2; user_display_name := "two";
                      user_str := "two#0001" |} ] |}.

End Example.


(** ** Notions used to state what the commands do *)

(** Whether some binding holds no channel. *)
Definition has_empty_slot (st : State) : bool :=
  existsb
    (fun kv =>
       existsb (fun gc => match snd gc with
                          | Some _ => false
                          | None => true
                          end)
               (snd kv))
    (group_mappings st).

(** The servers of a group, in the order of its bindings. *)
Definition bound_servers (st : State) (group_id : string) : list Z :=
  Dict.keys (Dict.get_default group_id [] (group_mappings st)).

(** The heading and one line of the text of [display]. *)
Definition display_header (group_id : string) : string :=
  "**Connected Channels for Group '" +++ group_id +++ "':**" +++
  newline +++ newline.

Definition display_line (ch : Channel) (enabled : bool) : string :=
  "- **Server**: " +++ guild_name (channel_guild ch) +++
  " | **Channel**: " +++ channel_mention ch +++
  " | **Status**: " +++ status_word enabled +++ newline.

(** The lines for a list of bindings; [None] when a binding holds no
    channel. *)
Fixpoint display_text (bs : list (Z * option Channel * bool)) : option string :=
  match bs with
  | [] => Some EmptyString
  | (_, Some ch, b) :: rest =>
      option_map (fun t => display_line ch b +++ t) (display_text rest)
  | (_, None, _) :: _ => None
  end.

(** Every binding holds a channel, and the client resolves the id of that
    channel to the same channel. *)
Definition resolves_tables (env : Env) (st : State) : Prop :=
  forall g chans gid slot,
    In (g, chans) (group_mappings st) -> In (gid, slot) chans ->
    exists ch, slot = Some ch /\ get_channel env (channel_id ch) = Some ch.

(** More of the example deployment: a disk that refuses to open the file,
    a guild without a group, a document with a server key that is no
    number. *)
Module Example2.


Definition guild_z : Guild :=
  {| guild_id := 9; guild_name := "GuildZ"; guild_members := [] |}.

Definition chan_z : Channel := {| channel_id := 99; channel_guild := guild_z |}.

Definition ctx_z : Ctx := {| ctx_guild := guild_z |}.

Definition doc_bad_key : Document :=
  {| doc_group_mappings := Some [("alpha", [("1", 11); ("two", 22)])];
     doc_relay_enabled := Some [("alpha", [("1", true)])];
     doc_server_groups := Some [("1", "alpha")] |}.

(** The settings document of the three bindings. *)
Definition doc_bound : Document :=
  {| doc_group_mappings :=
       Some [("alpha", [("1", 11); ("2", 22); ("3", 33)])];
     doc_relay_enabled :=
       Some [("alpha", [("1", true); ("2", true); ("3", true)])];
     doc_server_groups :=
       Some [("1", "alpha"); ("2", "alpha"); ("3", "alpha")] |}.

(** A transport whose connection to channel 22 breaks. *)
Definition send_b_broken : Transport :=
  fun c _ =>
    if Z.eqb (channel_id c) 22 then SendFails (ConnectionError "reset")
    else Sent.

(** A framework that runs [disable_relay] for guild A. *)
Definition runs_disable_a : CommandFramework :=
  fun _ w =>
    let r := disable_relay Example.env_all Example.ctx_a w in
    (run_world r, run_replies r, run_console r).

End Example2.

(** * Part II: properties *)

Lemma keqb_refl {K} `{EqKey K} (k : K) : keqb k k = true.
Proof. destruct (keqb_spec k k); congruence. Qed.

Lemma keqb_neq {K} `{EqKey K} (k k' : K) : k <> k' -> keqb k k' = false.
Proof. intro Hn. destruct (keqb_spec k k'); congruence. Qed.

Lemma keqb_eq {K} `{EqKey K} (k k' : K) : keqb k k' = true -> k = k'.
Proof. destruct (keqb_spec k k'); congruence. Qed.

Module DictFacts.
Import Dict.
Section Facts.
Context {K V : Type} `{EqKey K}.
Implicit Types (k : K) (v : V) (d : dict K V).

Lemma get_set_same k v d : get k (set k v d) = Some v.
Proof.
  induction d as [|[k' v'] d IH]; simpl.
  - now rewrite keqb_refl.
  - destruct (keqb k k') eqn:E; simpl.
    + now rewrite keqb_refl.
    + now rewrite E.
Qed.

Lemma get_set_other k k' v d : k <> k' -> get k' (set k v d) = get k' d.
Proof.
  intro Hn. induction d as [|[k0 v0] d IH]; simpl.
  - rewrite keqb_neq; auto.
  - destruct (keqb k k0) eqn:E; simpl.
    + apply keqb_eq in E. subst k0.
      now rewrite keqb_neq by auto.
    + now rewrite IH.
Qed.

Lemma get_None_keys k d : get k d = None <-> ~ In k (keys d).
Proof.
  induction d as [|[k' v'] d IH]; simpl.
  - tauto.
  - destruct (keqb_spec k k') as [->|Hn].
    + split; [discriminate | intros Hc; exfalso; apply Hc; now left].
    + rewrite IH. split.
      * intros Hd [He|Hi]; [congruence | tauto].
      * intros Hd Hi. apply Hd. now right.
Qed.

Lemma get_Some_keys k d v : get k d = Some v -> In k (keys d).
Proof.
  intro Hg. destruct (in_dec (fun a b => reflect_dec _ _ (keqb_spec a b)) k (keys d))
    as [Hi|Hi]; [exact Hi|].
  apply get_None_keys in Hi. congruence.
Qed.

Lemma mem_keys k d : mem k d = true <-> In k (keys d).
Proof.
  unfold mem. destruct (get k d) eqn:E.
  - split; [intros _; eapply get_Some_keys; eauto | reflexivity].
  - apply get_None_keys in E. split; [discriminate | tauto].
Qed.

(** Overwriting an existing key neither moves it nor adds one. *)
Lemma keys_set_present k v d : In k (keys d) -> keys (set k v d) = keys d.
Proof.
  induction d as [|[k' v'] d IH]; simpl; [tauto|].
  intros Hin. destruct (keqb_spec k k') as [->|Hn]; simpl.
  - reflexivity.
  - f_equal. apply IH. destruct Hin; [congruence | assumption].
Qed.

(** A new key goes to the end. *)
Lemma set_absent k v d : ~ In k (keys d) -> set k v d = d ++ [(k, v)].
Proof.
  induction d as [|[k' v'] d IH]; simpl; [reflexivity|].
  intros Hin. destruct (keqb_spec k k') as [->|Hn].
  - exfalso. apply Hin. now left.
  - f_equal. apply IH. tauto.
Qed.

Lemma keys_set_absent k v d : ~ In k (keys d) -> keys (set k v d) = keys d ++ [k].
Proof.
  intro Hn. rewrite set_absent by assumption.
  unfold keys. now rewrite map_app.
Qed.

Lemma in_keys_set k k' v d :
  In k' (keys (set k v d)) <-> k' = k \/ In k' (keys d).
Proof.
  destruct (in_dec (fun a b => reflect_dec _ _ (keqb_spec a b)) k (keys d))
    as [Hi|Hi].
  - rewrite keys_set_present by assumption.
    split; [tauto | intros [->|]; assumption].
  - rewrite keys_set_absent by assumption.
    rewrite in_app_iff. simpl. split; intuition congruence.
Qed.

Lemma NoDup_keys_set k v d : NoDup (keys d) -> NoDup (keys (set k v d)).
Proof.
  intro Hnd.
  destruct (in_dec (fun a b => reflect_dec _ _ (keqb_spec a b)) k (keys d))
    as [Hi|Hi].
  - now rewrite keys_set_present.
  - rewrite keys_set_absent by assumption.
    apply NoDup_app; [assumption | repeat constructor; simpl; tauto |].
    intros x Hx [<-|[]]. contradiction.
Qed.

Lemma fold_set_app (l acc : list (K * V)) :
  NoDup (keys (acc ++ l)) ->
  fold_left (fun a kv => set (fst kv) (snd kv) a) l acc = acc ++ l.
Proof.
  revert acc. induction l as [|[k v] l IH]; intros acc Hnd; simpl.
  - now rewrite app_nil_r.
  - assert (Hk : ~ In k (keys acc)).
    { unfold keys in *. rewrite map_app in Hnd. simpl in Hnd.
      apply NoDup_remove_2 in Hnd. rewrite in_app_iff in Hnd. tauto. }
    rewrite set_absent by assumption.
    rewrite IH; rewrite <- app_assoc; simpl; [reflexivity | assumption].
Qed.

(** A comprehension over pairs with distinct keys yields these very pairs,
    in their order. *)
Lemma of_items_NoDup (l : list (K * V)) : NoDup (keys l) -> of_items l = l.
Proof. intro Hnd. unfold of_items. now rewrite fold_set_app. Qed.

Lemma NoDup_fold_set (l acc : list (K * V)) :
  NoDup (keys acc) ->
  NoDup (keys (fold_left (fun a kv => set (fst kv) (snd kv) a) l acc)).
Proof.
  revert acc. induction l as [|[k v] l IH]; intros acc Hnd; simpl.
  - assumption.
  - apply IH. now apply NoDup_keys_set.
Qed.

Lemma NoDup_of_items (l : list (K * V)) : NoDup (keys (of_items l)).
Proof. apply NoDup_fold_set. constructor. Qed.

End Facts.
End DictFacts.

(** ** Python built-ins *)

Module PyFacts.
Import Py.

Lemma int_digits_step (c : ascii) (r : string) (acc v : Z) (b : bool) :
  digit_of c = Some v ->
  int_digits (String c r) acc b = int_digits r (10 * acc + v) true.
Proof. intro Hc. cbn [int_digits]. now rewrite Hc. Qed.

Ltac digit_step :=
  cbn [NilEmpty.string_of_uint Pos.of_uint_acc Pos.of_uint];
  erewrite int_digits_step by (vm_compute; reflexivity).

Lemma int_digits_acc (d : uint) (p : positive) :
  int_digits (NilEmpty.string_of_uint d) (Zpos p) true
  = Some (Zpos (Pos.of_uint_acc d p)).
Proof.
  revert p. induction d; intro p; [reflexivity | ..];
    digit_step; rewrite <- IHd; f_equal; lia.
Qed.

Lemma int_digits_zero (d : uint) (b : bool) :
  d <> Nil \/ b = true ->
  int_digits (NilEmpty.string_of_uint d) 0 b
  = Some (Z.of_N (Pos.of_uint d)).
Proof.
  revert b. induction d; intros b Hb;
    [destruct Hb as [Hb| ->]; [congruence | reflexivity] | ..];
    digit_step;
    try (change (10 * 0 + 0) with 0; apply IHd; now right);
    apply (int_digits_acc d).
Qed.

Lemma skip_trailing_digits (d : uint) :
  skip_trailing (NilEmpty.string_of_uint d) = NilEmpty.string_of_uint d.
Proof.
  induction d; simpl; try reflexivity; rewrite IHd;
    destruct (NilEmpty.string_of_uint d); reflexivity.
Qed.

Lemma skip_leading_digits (d : uint) :
  skip_leading (NilEmpty.string_of_uint d) = NilEmpty.string_of_uint d.
Proof. destruct d; reflexivity. Qed.

Lemma is_ascii_digits (d : uint) :
  is_ascii (NilEmpty.string_of_uint d) = true.
Proof. induction d; simpl; [reflexivity | assumption..]. Qed.

Lemma int_of_uint_string (d : uint) :
  d <> Nil ->
  int (NilEmpty.string_of_uint d) = Some (Z.of_N (Pos.of_uint d)).
Proof.
  intro Hd. unfold int.
  rewrite is_ascii_digits, skip_leading_digits, skip_trailing_digits.
  rewrite <- (int_digits_zero d false (or_introl Hd)).
  destruct d; try congruence; reflexivity.
Qed.

Lemma nilzero_nonnil (d : uint) :
  d <> Nil -> NilZero.string_of_uint d = NilEmpty.string_of_uint d.
Proof. intro Hd. destruct d; [congruence | reflexivity..]. Qed.

(** [int(str(n)) == n] *)
Lemma int_str (n : Z) : int (str n) = Some n.
Proof.
  unfold str. destruct n as [|p|p]; simpl.
  - reflexivity.
  - rewrite nilzero_nonnil by apply DecimalPos.Unsigned.to_uint_nonnil.
    rewrite int_of_uint_string by apply DecimalPos.Unsigned.to_uint_nonnil.
    now rewrite DecimalPos.Unsigned.of_to.
  - rewrite nilzero_nonnil by apply DecimalPos.Unsigned.to_uint_nonnil.
    unfold int. cbn [is_ascii]. rewrite is_ascii_digits.
    change (N.ltb (N_of_ascii "-") 128 && true)%bool with true.
    cbv iota. simpl skip_leading.
    assert (Hr : forall s, s <> EmptyString -> skip_trailing s = s ->
                 skip_trailing (String "-" s) = String "-" s).
    { intros s Hs Hr. simpl. rewrite Hr. destruct s; congruence. }
    rewrite Hr.
    + simpl. rewrite int_digits_zero by (left; apply DecimalPos.Unsigned.to_uint_nonnil).
      now rewrite DecimalPos.Unsigned.of_to.
    + pose proof (DecimalPos.Unsigned.to_uint_nonnil p) as Hn.
      destruct (Pos.to_uint p); try congruence; discriminate.
    + apply skip_trailing_digits.
Qed.

Lemma str_inj (n m : Z) : str n = str m -> n = m.
Proof.
  intro He. pose proof (int_str n) as Hn. rewrite He, int_str in Hn. congruence.
Qed.

End PyFacts.
(** ** Comprehensions and value maps *)

Section MapValuesFacts.
Context {K V W : Type} `{EqKey K} (f : V -> W).

Lemma keys_map_values (d : dict K V) :
  Dict.keys (Dict.map_values f d) = Dict.keys d.
Proof.
  unfold Dict.keys, Dict.map_values. rewrite map_map. now apply map_ext.
Qed.

Lemma get_map_values (k : K) (d : dict K V) :
  Dict.get k (Dict.map_values f d) = option_map f (Dict.get k d).
Proof.
  induction d as [|[k' v'] d IH]; simpl; [reflexivity|].
  destruct (keqb k k'); [reflexivity | exact IH].
Qed.

Lemma set_map_values (k : K) (v : V) (d : dict K V) :
  Dict.set k (f v) (Dict.map_values f d) = Dict.map_values f (Dict.set k v d).
Proof.
  induction d as [|[k' v'] d IH]; simpl; [reflexivity|].
  destruct (keqb k k'); simpl; [reflexivity | now rewrite IH].
Qed.

End MapValuesFacts.

Section ComprehendFacts.
Context {A K V : Type} `{EqKey K} (f : A -> result (K * V)).

Lemma comprehend_Forall2 (l : list A) (acc d : dict K V) :
  comprehend f l acc = Ok d ->
  exists l', Forall2 (fun a b => f a = Ok b) l l' /\
             d = fold_left (fun a kv => Dict.set (fst kv) (snd kv) a) l' acc.
Proof.
  revert acc. induction l as [|a l IH]; intros acc Hc; simpl in Hc.
  - exists []. split; [constructor | simpl; congruence].
  - destruct (f a) as [[k v]|e] eqn:Ea; [|discriminate].
    destruct (IH _ Hc) as (l' & Hf & Hd).
    exists ((k, v) :: l'). split; [now constructor | exact Hd].
Qed.

Lemma comprehend_of_Forall2 (l : list A) (l' : list (K * V)) (acc : dict K V) :
  Forall2 (fun a b => f a = Ok b) l l' ->
  comprehend f l acc
  = Ok (fold_left (fun a kv => Dict.set (fst kv) (snd kv) a) l' acc).
Proof.
  intro Hf. revert acc. induction Hf as [|a [k v] l l' Ha Hf IH]; intro acc; simpl.
  - reflexivity.
  - rewrite Ha. apply IH.
Qed.

(** A comprehension that raises nowhere and produces distinct keys is a
    plain map. *)
Lemma comprehend_map (g : A -> K * V) (l : list A) :
  (forall a, In a l -> f a = Ok (g a)) ->
  NoDup (Dict.keys (map g l)) ->
  comprehend f l [] = Ok (map g l).
Proof.
  intros Hg Hnd.
  rewrite (comprehend_of_Forall2 l (map g l)).
  - now rewrite DictFacts.fold_set_app.
  - clear Hnd. induction l as [|a l IH]; simpl; constructor.
    + apply Hg. now left.
    + apply IH. intros b Hb. apply Hg. now right.
Qed.

End ComprehendFacts.

(** ** Shapes *)

Lemma unique_keys2_shape {V} (d : dict string (dict Z V)) :
  unique_keys2 d <->
  NoDup (Dict.keys (shape d)) /\ Forall (fun kv => NoDup (snd kv)) (shape d).
Proof.
  unfold unique_keys2, shape. rewrite keys_map_values.
  unfold Dict.map_values. rewrite Forall_map. simpl. tauto.
Qed.

Lemma unique_keys2_same_shape {V W} (d : dict string (dict Z V))
    (d' : dict string (dict Z W)) :
  shape d = shape d' -> unique_keys2 d -> unique_keys2 d'.
Proof.
  intros Hs. rewrite !unique_keys2_shape. now rewrite Hs.
Qed.

Lemma keys_same_shape {V W} (d : dict string (dict Z V))
    (d' : dict string (dict Z W)) :
  shape d = shape d' -> Dict.keys d = Dict.keys d'.
Proof.
  intro Hs. rewrite <- (keys_map_values Dict.keys d), <- (keys_map_values Dict.keys d').
  exact (f_equal Dict.keys Hs).
Qed.

Lemma get_same_shape {V W} (d : dict string (dict Z V))
    (d' : dict string (dict Z W)) (g : string) :
  shape d = shape d' ->
  option_map Dict.keys (Dict.get g d) = option_map Dict.keys (Dict.get g d').
Proof.
  intro Hs. rewrite <- !get_map_values. exact (f_equal (Dict.get g) Hs).
Qed.

Lemma shape_set {V} (g : string) (inner : dict Z V) (d : dict string (dict Z V)) :
  shape (Dict.set g inner d) = Dict.set g (Dict.keys inner) (shape d).
Proof. unfold shape. now rewrite set_map_values. Qed.

Lemma unique_keys2_set {V} (g : string) (inner : dict Z V)
    (d : dict string (dict Z V)) :
  unique_keys2 d -> NoDup (Dict.keys inner) -> unique_keys2 (Dict.set g inner d).
Proof.
  intros [Hk Hf] Hi. split.
  - now apply DictFacts.NoDup_keys_set.
  - clear Hk. induction d as [|[g' v'] d IH]; simpl.
    + repeat constructor. exact Hi.
    + inversion Hf; subst.
      match goal with |- context [if ?b then _ else _] => destruct b end;
        constructor; auto.
Qed.

Lemma unique_keys2_get {V} (g : string) (inner : dict Z V)
    (d : dict string (dict Z V)) :
  unique_keys2 d -> Dict.get g d = Some inner -> NoDup (Dict.keys inner).
Proof.
  intros [_ Hf] Hg. induction d as [|[g' v'] d IH]; simpl in Hg; [discriminate|].
  inversion Hf; subst.
  match type of Hg with context [if ?b then _ else _] => destruct b end; [|auto].
  injection Hg as <-. assumption.
Qed.

(** ** Loading what was saved *)

Lemma get_channel_id (env : Env) (cid : Z) (c : Channel) :
  get_channel env cid = Some c -> channel_id c = cid.
Proof.
  unfold get_channel. intro Hf. apply find_some in Hf.
  now apply Z.eqb_eq.
Qed.

Lemma load_inner_dump {A B} (f : A -> B) (d : dict Z A) :
  NoDup (Dict.keys d) ->
  load_inner f (dump_keys d) = Ok (Dict.map_values f d).
Proof.
  intro Hnd. unfold load_inner.
  rewrite (comprehend_of_Forall2 _ (dump_keys d) (Dict.map_values f d)).
  - rewrite DictFacts.fold_set_app; [reflexivity|].
    simpl. now rewrite keys_map_values.
  - clear Hnd. induction d as [|[k a] d IH]; simpl; constructor; [|exact IH].
    simpl. unfold int_key. now rewrite PyFacts.int_str.
Qed.

Lemma load_outer_dump {A B} (f : A -> B) (d : dict string (dict Z A)) :
  unique_keys2 d ->
  load_outer f (map (fun kv => (fst kv, dump_keys (snd kv))) d)
  = Ok (Dict.map_values (Dict.map_values f) d).
Proof.
  intros [Hk Hf]. unfold load_outer.
  rewrite (comprehend_of_Forall2 _ _ (Dict.map_values (Dict.map_values f) d)).
  - rewrite DictFacts.fold_set_app; [reflexivity|].
    simpl. now rewrite keys_map_values.
  - clear Hk. induction d as [|[g v] d IH]; simpl; constructor.
    + simpl. inversion Hf; subst. now rewrite load_inner_dump.
    + apply IH. now inversion Hf.
Qed.

Lemma map_values_id {K V} (d : dict K V) : Dict.map_values (fun v => v) d = d.
Proof.
  unfold Dict.map_values. induction d as [|[k v] d IH]; simpl; congruence.
Qed.

Lemma map_values_ext {K V W} (f g : V -> W) (d : dict K V) :
  (forall kv, In kv d -> f (snd kv) = g (snd kv)) ->
  Dict.map_values f d = Dict.map_values g d.
Proof.
  intro Hfg. unfold Dict.map_values. apply map_ext_in.
  intros kv Hin. now rewrite Hfg.
Qed.

(** Loading the dump of a snapshot assigns all three tables. *)
Lemma load_settings_dump (env : Env) (s : Snapshot) (st0 : State) :
  consistent_snapshot s ->
  load_settings env (FileDoc (json_dump s)) st0
  = (state_of_snapshot env s, [Print "Settings loaded successfully."]).
Proof.
  intros [Hm Hg Hs Hn].
  assert (Hr : unique_keys2 (snap_relay_enabled s))
    by exact (unique_keys2_same_shape _ _ Hs Hm).
  unfold load_settings, load_group_mappings, load_relay_enabled,
    load_server_groups, json_dump. simpl.
  rewrite (load_outer_dump _ _ Hm). simpl.
  rewrite (load_outer_dump _ _ Hr). simpl.
  rewrite (load_inner_dump _ _ Hg).
  unfold state_of_snapshot, set_server_groups, set_relay_enabled,
    set_group_mappings. simpl.
  rewrite map_values_id.
  f_equal. f_equal.
  rewrite (map_values_ext (Dict.map_values (fun status : bool => status))
             (fun v => v)).
  - apply map_values_id.
  - intros kv _. apply map_values_id.
Qed.

(** ** Saving *)

Lemma save_flags_copy (v : dict Z bool) :
  NoDup (Dict.keys v) -> save_flags v = Ok v.
Proof.
  intro Hnd. unfold save_flags.
  rewrite (comprehend_map _ (fun gs => gs)).
  - now rewrite map_id.
  - now intros [k b] _.
  - now rewrite map_id.
Qed.

Lemma save_outer_flags_copy (re : dict string (dict Z bool)) :
  unique_keys2 re -> save_outer save_flags re = Ok re.
Proof.
  intros [Hk Hf]. unfold save_outer.
  rewrite (comprehend_map _ (fun kv => kv)).
  - now rewrite map_id.
  - intros [g v] Hin. simpl.
    rewrite Forall_forall in Hf. specialize (Hf _ Hin). simpl in Hf.
    now rewrite save_flags_copy.
  - now rewrite map_id.
Qed.

Lemma save_ids_inv (chans : dict Z (option Channel)) (ids : dict Z Z) :
  NoDup (Dict.keys chans) ->
  save_ids chans = Ok ids ->
  Dict.keys ids = Dict.keys chans.
Proof.
  intros Hnd Hc. apply comprehend_Forall2 in Hc. destruct Hc as (l' & Hf & ->).
  assert (Hk : Dict.keys l' = Dict.keys chans).
  { clear Hnd. induction Hf as [|[k slot] [k' cid] l l' Ha Hf IH]; simpl.
    - reflexivity.
    - f_equal; [|exact IH]. simpl in Ha.
      destruct slot; simpl in Ha; congruence. }
  rewrite DictFacts.fold_set_app; simpl; [exact Hk | now rewrite Hk].
Qed.

Lemma save_mappings_inv (gm : dict string (dict Z (option Channel)))
    (out : dict string (dict Z Z)) :
  unique_keys2 gm ->
  save_outer save_ids gm = Ok out ->
  shape out = shape gm.
Proof.
  intros [Hk Hf] Hc. apply comprehend_Forall2 in Hc.
  destruct Hc as (l' & Hf2 & ->).
  assert (Hs : shape l' = shape gm).
  { clear Hk. induction Hf2 as [|[g chans] [g' ids] l l' Ha Hf2 IH]; simpl.
    - reflexivity.
    - inversion Hf; subst. unfold shape, Dict.map_values in *. simpl.
      simpl in Ha.
      destruct (save_ids chans) as [inner|e] eqn:Ei; simpl in Ha;
        [|discriminate].
      injection Ha as <- <-.
      rewrite (save_ids_inv _ _ H1 Ei). f_equal. now apply IH. }
  rewrite DictFacts.fold_set_app; simpl; [exact Hs|].
  now rewrite (keys_same_shape _ _ Hs).
Qed.

Lemma save_data_inv (st : State) (s : Snapshot) :
  consistent st -> save_data st = Ok s -> consistent_snapshot s.
Proof.
  intros [Hm Hg Hs Hn] Hsave. unfold save_data in Hsave.
  destruct (save_outer save_ids (group_mappings st)) as [gm|e] eqn:Egm;
    [|discriminate].
  simpl in Hsave.
  rewrite (save_outer_flags_copy _ (unique_keys2_same_shape _ _ Hs Hm)) in Hsave.
  simpl in Hsave. injection Hsave as <-.
  pose proof (save_mappings_inv _ _ Hm Egm) as Hshape.
  constructor; simpl.
  - apply (unique_keys2_same_shape (group_mappings st)); [now symmetry | exact Hm].
  - exact Hg.
  - congruence.
  - now rewrite (keys_same_shape _ _ Hshape).
Qed.

Lemma resolves_dump (env : Env) (s : Snapshot) :
  resolves env (json_dump s) = true ->
  forall g chans k cid,
    In (g, chans) (snap_group_mappings s) -> In (k, cid) chans ->
    exists c, get_channel env cid = Some c.
Proof.
  unfold resolves, json_dump. simpl. intros Hr g chans k cid Hg Hk.
  rewrite forallb_forall in Hr.
  specialize (Hr (g, dump_keys chans)
                (in_map (fun kv => (fst kv, dump_keys (snd kv))) _ _ Hg)).
  simpl in Hr. rewrite forallb_forall in Hr.
  specialize (Hr (Py.str k, cid)
                (in_map (fun kv => (Py.str (fst kv), snd kv)) _ _ Hk)).
  simpl in Hr. destruct (get_channel env cid); [eauto | discriminate].
Qed.

Lemma save_ids_loaded (env : Env) (chans : dict Z Z) :
  NoDup (Dict.keys chans) ->
  (forall k cid, In (k, cid) chans -> exists c, get_channel env cid = Some c) ->
  save_ids (Dict.map_values (get_channel env) chans) = Ok chans.
Proof.
  intros Hnd Hres. unfold save_ids.
  rewrite (comprehend_of_Forall2 _ _ chans).
  - now rewrite DictFacts.fold_set_app.
  - clear Hnd. induction chans as [|[k cid] chans IH]; simpl; constructor.
    + simpl. destruct (Hres k cid (or_introl eq_refl)) as [c Hc].
      rewrite Hc. simpl. now rewrite (get_channel_id _ _ _ Hc).
    + apply IH. intros k' cid' Hin. apply (Hres k' cid'). now right.
Qed.

(** Saving the tables loaded from the dump of a snapshot builds that
    snapshot again, when every channel id resolves. *)
Lemma save_data_loaded (env : Env) (s : Snapshot) :
  consistent_snapshot s ->
  resolves env (json_dump s) = true ->
  save_data (state_of_snapshot env s) = Ok s.
Proof.
  intros [[Hk Hf] Hg Hs Hn] Hr.
  pose proof (resolves_dump _ _ Hr) as Hres.
  assert (Hr2 : unique_keys2 (snap_relay_enabled s))
    by exact (unique_keys2_same_shape _ _ Hs (conj Hk Hf)).
  unfold save_data, state_of_snapshot. simpl.
  assert (Hgm : save_outer save_ids
                  (Dict.map_values (Dict.map_values (get_channel env))
                     (snap_group_mappings s))
                = Ok (snap_group_mappings s)).
  { unfold save_outer.
    rewrite (comprehend_of_Forall2 _ _ (snap_group_mappings s)).
    - now rewrite DictFacts.fold_set_app.
    - clear Hk Hs Hn Hr Hr2.
      induction (snap_group_mappings s) as [|[g chans] gm IH]; simpl;
        constructor.
      + simpl. inversion Hf; subst. simpl in *.
        rewrite save_ids_loaded; [reflexivity | assumption |].
        intros k cid Hin. apply (Hres g chans k cid); [now left | exact Hin].
      + apply IH; [now inversion Hf|].
        intros g' chans' k cid Hin. apply (Hres g' chans' k cid). now right. }
  rewrite Hgm. simpl. rewrite (save_outer_flags_copy _ Hr2). simpl.
  now destruct s.
Qed.

(** ** Reachable worlds are well formed *)

Lemma set_get_same {K V} `{EqKey K} (k : K) (v : V) (d : dict K V) :
  Dict.get k d = Some v -> Dict.set k v d = d.
Proof.
  induction d as [|[k' v'] d IH]; simpl; [discriminate|].
  destruct (keqb_spec k k') as [->|Hn].
  - now intros [= ->].
  - intro Hg. now rewrite IH.
Qed.

Lemma keys_set_same_keys {K V W} `{EqKey K} (k : K) (v : V) (w : W)
    (d : dict K V) (d' : dict K W) :
  Dict.keys d = Dict.keys d' ->
  Dict.keys (Dict.set k v d) = Dict.keys (Dict.set k w d').
Proof.
  revert d'. induction d as [|[k1 v1] d IH]; intros [|[k2 v2] d'] Hk;
    simpl in Hk; try discriminate; [reflexivity|].
  injection Hk as -> Hk. simpl.
  destruct (keqb k k2); simpl; [now rewrite Hk | now rewrite (IH d')].
Qed.

Lemma consistent_empty : consistent empty_state.
Proof.
  constructor; simpl.
  - split; constructor.
  - constructor.
  - reflexivity.
  - tauto.
Qed.

Lemma consistent_set_server_groups (st : State) (gid : Z) (g : string) :
  consistent st ->
  consistent (set_server_groups (Dict.set gid g (server_groups st)) st).
Proof.
  intros [Hm Hg Hs Hn]. constructor; simpl; auto.
  now apply DictFacts.NoDup_keys_set.
Qed.

(** Storing a channel and a flag under the same server of the same group
    keeps the two tables aligned. *)
Lemma consistent_setitem2 (st : State) (g : string) (gid : Z)
    (slot : option Channel) (flag : bool)
    (gm : dict string (dict Z (option Channel)))
    (re : dict string (dict Z bool)) :
  consistent st -> g <> "" ->
  setitem2 g gid slot (group_mappings st) = Ok gm ->
  setitem2 g gid flag (relay_enabled st) = Ok re ->
  consistent {| group_mappings := gm; relay_enabled := re;
                server_groups := server_groups st |}.
Proof.
  intros [Hm Hg Hs Hn] Hne Hgm Hre. unfold setitem2 in *.
  destruct (Dict.get g (group_mappings st)) as [chans|] eqn:Ec; [|discriminate].
  destruct (Dict.get g (relay_enabled st)) as [flags|] eqn:Ef; [|discriminate].
  injection Hgm as <-. injection Hre as <-.
  pose proof (get_same_shape _ _ g Hs) as Hk. rewrite Ec, Ef in Hk.
  simpl in Hk. injection Hk as Hk.
  constructor; cbn [group_mappings relay_enabled server_groups].
  - apply unique_keys2_set; [exact Hm|].
    apply DictFacts.NoDup_keys_set. exact (unique_keys2_get _ _ _ Hm Ec).
  - exact Hg.
  - rewrite !shape_set, Hs. f_equal. now apply keys_set_same_keys.
  - rewrite DictFacts.in_keys_set. intros [He|Hi]; [congruence | contradiction].
Qed.

Lemma consistent_new_group (st : State) (g : string) :
  consistent st -> g <> "" ->
  consistent
    (set_relay_enabled (Dict.set g [] (relay_enabled st))
       (set_group_mappings (Dict.set g [] (group_mappings st)) st)).
Proof.
  intros [Hm Hg Hs Hn] Hne. unfold set_relay_enabled, set_group_mappings.
  constructor; cbn [group_mappings relay_enabled server_groups].
  - apply unique_keys2_set; [exact Hm | constructor].
  - exact Hg.
  - now rewrite !shape_set, Hs.
  - rewrite DictFacts.in_keys_set. intros [He|Hi]; [congruence | contradiction].
Qed.

Lemma truthy_nonempty (s : string) : Py.truthy s = true -> s <> "".
Proof. destruct s; [discriminate | congruence]. Qed.

Lemma saved_file_corrupt (e : exn) : saved_file (FileCorrupt e).
Proof. intros x Hx. discriminate. Qed.

Lemma saved_file_missing : saved_file FileMissing.
Proof. intros x Hx. discriminate. Qed.

Lemma save_settings_mem (env : Env) (w : World) :
  mem (run_world (save_settings env w)) = mem w.
Proof.
  unfold save_settings. destruct (save_data (mem w)); [|reflexivity].
  destruct (disk env); reflexivity.
Qed.

Lemma save_settings_ok (env : Env) (w : World) :
  world_ok w -> world_ok (run_world (save_settings env w)).
Proof.
  intros [Hc Hf]. split; [now rewrite save_settings_mem|].
  unfold save_settings. destruct (save_data (mem w)) as [s|e] eqn:Es; [|exact Hf].
  destruct (disk env); simpl; [ | exact Hf | apply saved_file_corrupt].
  intros x [= <-]. exists s. split; [reflexivity|].
  now apply (save_data_inv (mem w)).
Qed.

Lemma save_then_reply_world (env : Env) (text : string) (w : World) :
  run_world (save_then_reply env text w) = run_world (save_settings env w).
Proof.
  unfold save_then_reply. now destruct (run_outcome (save_settings env w)).
Qed.

Lemma shape_map_values {V W} (f : V -> W) (d : dict string (dict Z V)) :
  shape (Dict.map_values (Dict.map_values f) d) = shape d.
Proof.
  unfold shape. induction d as [|[g chans] d IH]; simpl; [reflexivity|].
  now rewrite IH, keys_map_values.
Qed.

Lemma on_ready_ok (env : Env) (w : World) :
  world_ok w -> world_ok (run_world (on_ready env w)).
Proof.
  intros [Hc Hf]. unfold on_ready.
  destruct (file w) as [|e|x] eqn:Ew.
  - simpl. split; [exact Hc | simpl; now rewrite Ew].
  - simpl. split; [exact Hc | simpl; now rewrite Ew].
  - destruct (Hf x eq_refl) as (s & -> & Hs).
    rewrite (load_settings_dump env s (mem w) Hs). simpl.
    split; simpl; [|now rewrite Ew].
    destruct Hs as [Hm Hg Hsh Hn]. unfold state_of_snapshot.
    constructor; cbn [group_mappings relay_enabled server_groups].
    + apply (unique_keys2_same_shape (snap_group_mappings s)); [|exact Hm].
      now rewrite shape_map_values.
    + exact Hg.
    + now rewrite shape_map_values.
    + now rewrite keys_map_values.
Qed.

Lemma set_group_ok (env : Env) (ctx : Ctx) (g : string) (w : World) :
  world_ok w -> world_ok (run_world (set_group env ctx g w)).
Proof.
  intros [Hc Hf]. unfold set_group. rewrite save_then_reply_world.
  apply save_settings_ok. split; simpl; [|exact Hf].
  now apply consistent_set_server_groups.
Qed.

Lemma set_shared_channel_ok (env : Env) (ctx : Ctx) (ch : Channel) (w : World) :
  world_ok w -> world_ok (run_world (set_shared_channel env ctx ch w)).
Proof.
  intros [Hc Hf]. unfold set_shared_channel.
  destruct (Dict.get _ (server_groups (mem w))) as [g|]; [|now split].
  destruct (Py.truthy g) eqn:Et; cbn [negb]; [|now split].
  apply truthy_nonempty in Et.
  set (st1 := if Dict.mem g (group_mappings (mem w)) then mem w else _).
  assert (Hc1 : consistent st1).
  { subst st1. destruct (Dict.mem g _); [exact Hc|].
    now apply consistent_new_group. }
  set (gid := guild_id (ctx_guild ctx)).
  destruct (setitem2 g gid (Some ch) (group_mappings st1)) as [gm|e] eqn:Egm;
    [|now split].
  destruct (setitem2 g gid true (relay_enabled (set_group_mappings gm st1)))
    as [re|e] eqn:Ere.
  - rewrite save_then_reply_world. apply save_settings_ok.
    split; simpl; [|exact Hf].
    exact (consistent_setitem2 st1 g _ _ _ gm re Hc1 Et Egm Ere).
  - exfalso. simpl in Ere. unfold setitem2 in Egm, Ere.
    destruct (Dict.get g (group_mappings st1)) eqn:E1; [|discriminate].
    pose proof (get_same_shape _ _ g (cons_shape _ Hc1)) as Hk.
    rewrite E1 in Hk.
    destruct (Dict.get g (relay_enabled st1)); [discriminate|discriminate].
Qed.

Lemma relay_slot_inv (st : State) (gid : Z) (g : string) :
  relay_slot st gid = Some g ->
  Dict.get gid (server_groups st) = Some g /\ Py.truthy g = true /\
  exists flags, Dict.get g (relay_enabled st) = Some flags /\
                In gid (Dict.keys flags).
Proof.
  unfold relay_slot. intro Hr.
  destruct (Dict.get gid (server_groups st)) as [g'|]; [|discriminate].
  destruct (Py.truthy g') eqn:Et; [|discriminate].
  destruct (Dict.get g' (relay_enabled st)) as [flags|] eqn:Ef; [|discriminate].
  destruct (Dict.mem gid flags) eqn:Em; [|discriminate].
  injection Hr as <-. repeat split; auto.
  exists flags. split; [exact Ef | now apply DictFacts.mem_keys].
Qed.

(** Overwriting the flag of a server that has one leaves the keys of
    [relay_enabled] as they are. *)
Lemma shape_set_flag (re : dict string (dict Z bool)) (g : string) (gid : Z)
    (flag : bool) (flags : dict Z bool) :
  Dict.get g re = Some flags -> In gid (Dict.keys flags) ->
  shape (Dict.set g (Dict.set gid flag flags) re) = shape re.
Proof.
  intros Hg Hin. rewrite shape_set, DictFacts.keys_set_present by exact Hin.
  apply set_get_same. unfold shape. rewrite get_map_values. now rewrite Hg.
Qed.

Lemma switch_relay_ok (flag : bool) (env : Env) (ctx : Ctx) (w : World) :
  world_ok w -> world_ok (run_world (switch_relay flag env ctx w)).
Proof.
  intros [Hc Hf]. unfold switch_relay.
  destruct (relay_slot (mem w) (guild_id (ctx_guild ctx))) as [g|] eqn:Er;
    [|now split].
  destruct (relay_slot_inv _ _ _ Er) as (Hsg & Ht & flags & Hfl & Hin).
  unfold setitem2. rewrite Hfl.
  rewrite save_then_reply_world. apply save_settings_ok.
  split; [|exact Hf]. destruct Hc as [Hm Hg Hs Hn].
  unfold set_mem, set_relay_enabled.
  constructor; cbn [mem group_mappings relay_enabled server_groups]; auto.
  now rewrite shape_set_flag.
Qed.

Lemma step_ok (w w' : World) : step w w' -> world_ok w -> world_ok w'.
Proof.
  intros Hs Hw. destruct Hs.
  - now apply on_ready_ok.
  - split; [apply consistent_empty | exact (proj2 Hw)].
  - now apply set_group_ok.
  - now apply set_shared_channel_ok.
  - now apply switch_relay_ok.
  - now apply switch_relay_ok.
Qed.

Lemma reachable_ok (w : World) : reachable w -> world_ok w.
Proof.
  induction 1 as [|w w' Hr IH Hs].
  - split; [apply consistent_empty | apply saved_file_missing].
  - exact (step_ok _ _ Hs IH).
Qed.

(** ** Handlers that only read *)

(** [status], [display] and [ping] leave memory and file as they are, which
    is why [step] has no case for them. *)
Lemma readers_keep_world (ctx : Ctx) (w : World) :
  run_world (status ctx w) = w /\
  run_world (display ctx w) = w /\
  run_world (ping w) = w.
Proof.
  repeat split.
  - unfold status. destruct (mapping_slot _ _) as [[g slot]|]; [|reflexivity].
    destruct (enabled_flag _ _ _); [|reflexivity].
    now destruct slot.
  - unfold display.
    destruct (Dict.get _ (server_groups (mem w))) as [g|]; [|reflexivity].
    destruct (Py.truthy g); [|reflexivity]. cbn [negb].
    destruct (Dict.get g (group_mappings (mem w))) as [[|kv chans]|];
      try reflexivity.
    now destruct (display_lines _ _ _ _).
Qed.

(** ** The relay part of [on_message] *)

(** Relaying reads the tables and writes none of them. *)
Lemma gather_world (send : Transport) (tasks : list (Channel * string))
    (w : World) : run_world (gather send tasks w) = w.
Proof. reflexivity. Qed.

Lemma handle_world (send : Transport) (message : Message) (w : World) :
  run_world (handle send message w) = w.
Proof.
  unfold handle. destruct (guild message) as [origin|]; [|reflexivity].
  destruct (mapping_slot _ _) as [[g slot]|]; [|reflexivity].
  destruct (enabled_flag _ _ _) as [[|]|e]; try reflexivity.
  destruct slot as [oc|]; [|reflexivity].
  destruct (Z.eqb _ _); [|reflexivity].
  destruct (relay_tasks _ _ _ _); reflexivity.
Qed.

Lemma mapping_slot_inv (st : State) (gid : Z) (g : string)
    (slot : option Channel) :
  mapping_slot st gid = Some (g, slot) ->
  group_of st gid = Some g /\ Py.truthy g = true /\
  exists chans, Dict.get g (group_mappings st) = Some chans /\
                Dict.get gid chans = Some slot.
Proof.
  unfold mapping_slot, group_of. intro Hm.
  destruct (Dict.get gid (server_groups st)) as [g'|]; [|discriminate].
  destruct (Py.truthy g') eqn:Et; [|discriminate].
  destruct (Dict.get g' (group_mappings st)) as [chans|] eqn:Ec; [|discriminate].
  destruct (Dict.get gid chans) as [slot'|] eqn:Es; [|discriminate].
  injection Hm as <- <-. repeat split; auto. now exists chans.
Qed.

(** When the flag can be read at all, it is the flag of the binding. *)
Lemma enabled_flag_binding (st : State) (g : string) (gid : Z)
    (slot : option Channel) (b b' : bool) :
  get_binding st g gid = Some (slot, b) ->
  enabled_flag st g gid = Ok b' -> b' = b.
Proof.
  unfold get_binding, enabled_flag, Dict.get_default.
  destruct (Dict.get g (group_mappings st)) as [chans|]; [|discriminate].
  destruct (Dict.get gid chans); [|discriminate].
  destruct (Dict.get g (relay_enabled st)); [|discriminate].
  congruence.
Qed.

Lemma mapping_slot_binding (st : State) (gid : Z) (g : string)
    (slot : option Channel) :
  mapping_slot st gid = Some (g, slot) ->
  exists b, get_binding st g gid = Some (slot, b).
Proof.
  intro Hm. apply mapping_slot_inv in Hm.
  destruct Hm as (_ & _ & chans & Hc & Hs).
  unfold get_binding. rewrite Hc, Hs. eauto.
Qed.

(** [on_message] hands on the world that the command framework left. *)
Lemma on_message_world (process_commands : CommandFramework) (env : Env)
    (send : Transport) (message : Message) (w : World) :
  run_world (on_message process_commands env send message w) = w \/
  run_world (on_message process_commands env send message w)
  = fst (fst (process_commands message w)).
Proof.
  unfold on_message. destruct (Z.eqb _ _); [now left | right].
  destruct (process_commands message w) as [[w1 answers] console].
  apply handle_world.
Qed.

(** C2. A message is not relayed, and no table changes, when its server
    has no group, or no binding in its group, or a binding that is switched
    off, or a binding to another channel than the one the message was
    posted in. *)
Theorem handle_not_eligible (send : Transport) (message : Message)
    (w : World) (origin : Guild) :
  guild message = Some origin ->
  (group_of (mem w) (guild_id origin) = None
   \/ (exists g, group_of (mem w) (guild_id origin) = Some g /\
                 get_binding (mem w) g (guild_id origin) = None)
   \/ (exists g slot, group_of (mem w) (guild_id origin) = Some g /\
                      get_binding (mem w) g (guild_id origin) = Some (slot, false))
   \/ (exists g oc b, group_of (mem w) (guild_id origin) = Some g /\
                      get_binding (mem w) g (guild_id origin) = Some (Some oc, b) /\
                      channel message <> channel_id oc)) ->
  run_tasks (handle send message w) = [] /\
  run_world (handle send message w) = w.
Proof.
  intros Hg Hcase. split; [|apply handle_world].
  unfold handle. rewrite Hg.
  destruct (mapping_slot (mem w) (guild_id origin)) as [[g slot]|] eqn:Em;
    [|reflexivity].
  destruct (mapping_slot_binding _ _ _ _ Em) as [b Hb].
  destruct (mapping_slot_inv _ _ _ _ Em) as (Hgo & _).
  destruct (enabled_flag (mem w) g (guild_id origin)) as [[|]|e] eqn:Ef;
    try reflexivity.
  pose proof (enabled_flag_binding _ _ _ _ _ _ Hb Ef) as <-.
  destruct Hcase as [Hn | [(g' & Hg' & Hn) | [(g' & s' & Hg' & Hn)
                    | (g' & oc & b' & Hg' & Hn & Hne)]]];
    rewrite Hgo in *; try discriminate;
    injection Hg' as <-; rewrite Hb in Hn; try discriminate.
  injection Hn as -> <-.
  apply Z.eqb_neq in Hne. now rewrite Hne.
Qed.

Lemma handle_not_eligible_witness :
  run_tasks (handle Example.send_ok Example.hello
               (run_world (disable_relay Example.env_all Example.ctx_a
                             Example.world_bound))) = [] /\
  run_world (handle Example.send_ok Example.hello
               (run_world (disable_relay Example.env_all Example.ctx_a
                             Example.world_bound)))
  = run_world (disable_relay Example.env_all Example.ctx_a Example.world_bound).
Proof.
  apply (handle_not_eligible Example.send_ok Example.hello _ Example.guild_a).
  - reflexivity.
  - right. right. left. exists "alpha", (Some Example.chan_a).
    split; reflexivity.
Defined.

(** C10. A message written by the relay itself stops [on_message] at its
    first test: no command runs, nothing is relayed, no table changes. A
    relayed copy, which the relay wrote, is therefore not relayed again. *)
Theorem on_message_ignores_own (process_commands : CommandFramework)
    (env : Env) (send : Transport) (message : Message) (w : World) :
  user_id (author message) = user_id (bot_user env) ->
  on_message process_commands env send message w = returns w.
Proof.
  intro Ha. unfold on_message. now rewrite Ha, Z.eqb_refl.
Qed.

Lemma on_message_ignores_own_witness :
  on_message Example.no_commands Example.env_all Example.send_ok
    Example.echo Example.world_bound
  = returns Example.world_bound.
Proof.
  apply (on_message_ignores_own Example.no_commands Example.env_all
           Example.send_ok Example.echo Example.world_bound).
  reflexivity.
Defined.

(** ** Dispatch *)

(** C4, as the code has it. A task whose send succeeds pauses for one second
    and completes; a task whose send is refused with an HTTP error logs the
    error and completes at once, without the pause. *)
Theorem relay_message_pause (send : Transport) (target : Channel)
    (text : string) :
  (send target text = Sent ->
   relay_message send target text
   = (Ok tt, [ESend target text; ESleep 1])) /\
  (forall msg, send target text = SendFails (HTTPException msg) ->
   relay_message send target text
   = (Ok tt, [ESend target text;
              ELog (LogError "Failed to relay message: " (HTTPException msg))]) /\
   pauses_after_send 1 (snd (relay_message send target text)) = false).
Proof.
  unfold relay_message. split.
  - now intros ->.
  - intros msg ->. split; reflexivity.
Qed.

Lemma relay_message_pause_witness :
  relay_message Example.send_b_down Example.chan_c "hi"
  = (Ok tt, [ESend Example.chan_c "hi"; ESleep 1]) /\
  relay_message Example.send_b_down Example.chan_b "hi"
  = (Ok tt, [ESend Example.chan_b "hi";
             ELog (LogError "Failed to relay message: " (HTTPException "503"))]).
Proof.
  split.
  - apply (proj1 (relay_message_pause Example.send_b_down Example.chan_c "hi")).
    reflexivity.
  - apply (proj2 (relay_message_pause Example.send_b_down Example.chan_b "hi")
             "503").
    reflexivity.
Defined.

(** C4, as the claim has it, fails: a task whose send is refused ends
    without a pause. *)
Lemma relay_message_no_pause_on_failure :
  Example.send_b_down Example.chan_b "hi" = SendFails (HTTPException "503") /\
  fst (relay_message Example.send_b_down Example.chan_b "hi") = Ok tt /\
  pauses_after_send 1
    (snd (relay_message Example.send_b_down Example.chan_b "hi")) = false.
Proof. repeat split. Qed.

Lemma first_raise_all_ok (rs : list (result unit)) :
  Forall (fun r => r = Ok tt) rs -> first_raise rs = Ok tt.
Proof.
  unfold first_raise. induction 1 as [|r rs Hr _ IH]; simpl; [reflexivity|].
  now rewrite Hr.
Qed.

Lemma first_raise_ok (rs : list (result unit)) :
  first_raise rs = Ok tt -> Forall (fun r => r = Ok tt) rs.
Proof.
  unfold first_raise. induction rs as [|r rs IH]; simpl; intro H; constructor.
  - destruct r as [[]|e]; [reflexivity | exact H].
  - destruct r as [u|e]; [exact (IH H) | discriminate].
Qed.

(** A task completes when its send succeeds or fails with the HTTP error,
    and raises when its send fails in another way. *)
Lemma relay_message_completes (send : Transport) (c : Channel)
    (text : string) :
  fst (relay_message send c text) = Ok tt <->
  (forall e, send c text = SendFails e -> is_http e = true).
Proof.
  unfold relay_message. destruct (send c text) as [|e].
  - split; [discriminate | reflexivity].
  - destruct (is_http e) eqn:Eh; simpl; split.
    + intros _ e' [= <-]. exact Eh.
    + reflexivity.
    + discriminate.
    + intro H. specialize (H e eq_refl). congruence.
Qed.

(** What a task does: the one send, and after a send that failed the log
    line where the error is the HTTP error, nothing where it is not. *)
Lemma relay_message_trace (send : Transport) (c : Channel) (text : string) :
  sends_of (snd (relay_message send c text)) = [(c, text)] /\
  forall e, send c text = SendFails e ->
    snd (relay_message send c text)
    = if is_http e
      then [ESend c text; ELog (LogError "Failed to relay message: " e)]
      else [ESend c text].
Proof.
  unfold relay_message. destruct (send c text) as [|e].
  - split; [reflexivity | discriminate].
  - split.
    + now destruct (is_http e).
    + intros e' [= <-]. now destruct (is_http e).
Qed.

(** Every task of a gather runs to its end, and the gather completes exactly
    when no send failed with an error other than the HTTP error. *)
Lemma gather_runs_all (send : Transport) (tasks : list (Channel * string))
    (w : World) :
  Forall2
    (fun t trace =>
       sends_of trace = [t] /\
       forall e, send (fst t) (snd t) = SendFails e ->
         trace
         = if is_http e
           then [ESend (fst t) (snd t);
                 ELog (LogError "Failed to relay message: " e)]
           else [ESend (fst t) (snd t)])
    tasks (run_tasks (gather send tasks w)) /\
  (run_outcome (gather send tasks w) = Ok tt <->
   forall t e, In t tasks -> send (fst t) (snd t) = SendFails e ->
               is_http e = true).
Proof.
  unfold gather. cbn [run_outcome run_tasks]. rewrite !map_map. split.
  - induction tasks as [|[c text] tasks IH]; simpl; constructor.
    + apply relay_message_trace.
    + exact IH.
  - split.
    + intros H t e Hin Hs. apply first_raise_ok in H.
      rewrite Forall_map, Forall_forall in H.
      exact (proj1 (relay_message_completes send (fst t) (snd t))
               (H t Hin) e Hs).
    + intro H. apply first_raise_all_ok. rewrite Forall_map.
      apply Forall_forall. intros t Hin.
      apply relay_message_completes. intros e Hs. exact (H t e Hin Hs).
Qed.

Lemma handle_eligible (send : Transport) (message : Message) (w : World)
    (origin : Guild) (g : string) (oc : Channel) :
  guild message = Some origin ->
  mapping_slot (mem w) (guild_id origin) = Some (g, Some oc) ->
  enabled_flag (mem w) g (guild_id origin) = Ok true ->
  channel message = channel_id oc ->
  handle send message w
  = match relay_tasks message origin
            (Dict.get_default g [] (relay_enabled (mem w)))
            (Dict.get_default g [] (group_mappings (mem w))) with
    | Raise e => raises e w
    | Ok tasks => gather send tasks w
    end.
Proof.
  intros Hg Hm He Hc. unfold handle.
  now rewrite Hg, Hm, He, Hc, Z.eqb_refl.
Qed.

(** C5, as the code has it. When the message is relayed, every task makes
    its one send and none makes a second, whatever becomes of the other
    sends; a send that fails with the HTTP error is caught and logged in
    the task of its target; and the handler returns without raising
    exactly when no send failed with an error of another class. *)
Theorem handle_isolates_failures (send : Transport) (message : Message)
    (w : World) (origin : Guild) (g : string) (oc : Channel)
    (tasks : list (Channel * string)) :
  guild message = Some origin ->
  mapping_slot (mem w) (guild_id origin) = Some (g, Some oc) ->
  enabled_flag (mem w) g (guild_id origin) = Ok true ->
  channel message = channel_id oc ->
  relay_tasks message origin
    (Dict.get_default g [] (relay_enabled (mem w)))
    (Dict.get_default g [] (group_mappings (mem w))) = Ok tasks ->
  Forall2
    (fun t trace =>
       sends_of trace = [t] /\
       forall e, send (fst t) (snd t) = SendFails e ->
         trace
         = if is_http e
           then [ESend (fst t) (snd t);
                 ELog (LogError "Failed to relay message: " e)]
           else [ESend (fst t) (snd t)])
    tasks (run_tasks (handle send message w)) /\
  (run_outcome (handle send message w) = Ok tt <->
   forall t e, In t tasks -> send (fst t) (snd t) = SendFails e ->
               is_http e = true).
Proof.
  intros Hg Hm He Hc Ht.
  rewrite (handle_eligible send message w origin g oc Hg Hm He Hc), Ht.
  apply gather_runs_all.
Qed.

Lemma handle_isolates_failures_witness :
  Forall2
    (fun t trace =>
       sends_of trace = [t] /\
       forall e, Example.send_b_down (fst t) (snd t) = SendFails e ->
         trace
         = if is_http e
           then [ESend (fst t) (snd t);
                 ELog (LogError "Failed to relay message: " e)]
           else [ESend (fst t) (snd t)])
    [(Example.chan_b, "[GuildA] X: hello @Bob");
     (Example.chan_c, "[GuildA] X: hello <@123>")]
    (run_tasks (handle Example.send_b_down Example.hello Example.world_bound))
  /\
  (run_outcome (handle Example.send_b_down Example.hello Example.world_bound)
   = Ok tt <->
   forall t e,
     In t [(Example.chan_b, "[GuildA] X: hello @Bob");
           (Example.chan_c, "[GuildA] X: hello <@123>")] ->
     Example.send_b_down (fst t) (snd t) = SendFails e -> is_http e = true).
Proof.
  apply (handle_isolates_failures Example.send_b_down Example.hello
           Example.world_bound Example.guild_a "alpha" Example.chan_a).
  - reflexivity.
  - reflexivity.
  - reflexivity.
  - reflexivity.
  - reflexivity.
Defined.

(** C5, as the claim has it, fails. The send to guild B fails with a
    connection error, which is a failed send and no
    [discord.HTTPException]: the task does not catch it and logs nothing,
    and the handler raises it to its caller. Guild C is sent its copy all
    the same. *)
Lemma handle_raises_on_connection_error :
  Example2.send_b_broken Example.chan_b "[GuildA] X: hello @Bob"
  = SendFails (ConnectionError "reset") /\
  run_tasks (handle Example2.send_b_broken Example.hello Example.world_bound)
  = [[ESend Example.chan_b "[GuildA] X: hello @Bob"];
     [ESend Example.chan_c "[GuildA] X: hello <@123>"; ESleep 1]] /\
  run_outcome (handle Example2.send_b_broken Example.hello Example.world_bound)
  = Raise (ConnectionError "reset").
Proof. repeat split. Qed.

(** ** Enable and disable *)

Lemma switch_relay_mem (flag : bool) (env : Env) (ctx : Ctx) (w : World) :
  mem (run_world (switch_relay flag env ctx w))
  = match relay_slot (mem w) (guild_id (ctx_guild ctx)) with
    | Some g =>
        match setitem2 g (guild_id (ctx_guild ctx)) flag
                (relay_enabled (mem w)) with
        | Ok re => set_relay_enabled re (mem w)
        | Raise _ => mem w
        end
    | None => mem w
    end.
Proof.
  unfold switch_relay.
  destruct (relay_slot _ _) as [g|]; [|reflexivity].
  destruct (setitem2 _ _ _ _); [|reflexivity].
  now rewrite save_then_reply_world, save_settings_mem.
Qed.

Lemma switch_relay_mappings (flag : bool) (env : Env) (ctx : Ctx) (w : World) :
  group_mappings (mem (run_world (switch_relay flag env ctx w)))
  = group_mappings (mem w).
Proof.
  rewrite switch_relay_mem.
  destruct (relay_slot _ _); [|reflexivity].
  now destruct (setitem2 _ _ _ _).
Qed.

Lemma switch_relay_groups (flag : bool) (env : Env) (ctx : Ctx) (w : World) :
  server_groups (mem (run_world (switch_relay flag env ctx w)))
  = server_groups (mem w).
Proof.
  rewrite switch_relay_mem.
  destruct (relay_slot _ _); [|reflexivity].
  now destruct (setitem2 _ _ _ _).
Qed.

Lemma switch_relay_shape (flag : bool) (env : Env) (ctx : Ctx) (w : World) :
  shape (relay_enabled (mem (run_world (switch_relay flag env ctx w))))
  = shape (relay_enabled (mem w)).
Proof.
  rewrite switch_relay_mem.
  destruct (relay_slot _ _) as [g0|] eqn:Er; [|reflexivity].
  destruct (relay_slot_inv _ _ _ Er) as (_ & _ & flags & Hfl & Hin).
  unfold setitem2. rewrite Hfl. cbn [set_relay_enabled relay_enabled].
  now apply shape_set_flag.
Qed.

(** The flag of any other binding reads as before. *)
Lemma switch_relay_other_flags (flag : bool) (env : Env) (ctx : Ctx)
    (w : World) (g : string) (s : Z) :
  s <> guild_id (ctx_guild ctx) \/
  group_of (mem w) (guild_id (ctx_guild ctx)) <> Some g ->
  Dict.get_default s false
    (Dict.get_default g []
       (relay_enabled (mem (run_world (switch_relay flag env ctx w)))))
  = Dict.get_default s false
      (Dict.get_default g [] (relay_enabled (mem w))).
Proof.
  intro Hother. rewrite switch_relay_mem.
  destruct (relay_slot _ _) as [g0|] eqn:Er; [|reflexivity].
  destruct (relay_slot_inv _ _ _ Er) as (Hsg & _ & flags & Hfl & _).
  unfold setitem2. rewrite Hfl. cbn [set_relay_enabled relay_enabled].
  unfold Dict.get_default.
  destruct (keqb_spec g0 g) as [->|Hn].
  - rewrite DictFacts.get_set_same, Hfl.
    destruct Hother as [Hs | Hg]; [|contradiction].
    rewrite DictFacts.get_set_other by congruence. reflexivity.
  - now rewrite DictFacts.get_set_other.
Qed.

(** C9. Enable and disable leave [group_mappings] and [server_groups] as
    they are, hence the channel of every binding and every group
    assignment; the binding of any other server, or of this server in
    another group, reads as before; and the keys of [relay_enabled] keep
    their places and their order. After a disable and an enable the channel table is the
    one before. *)
Theorem switch_relay_frame (env : Env) (ctx : Ctx) (w : World) :
  (forall flag,
     let w' := run_world (switch_relay flag env ctx w) in
     group_mappings (mem w') = group_mappings (mem w) /\
     server_groups (mem w') = server_groups (mem w) /\
     shape (relay_enabled (mem w')) = shape (relay_enabled (mem w)) /\
     (forall g s,
        option_map fst (get_binding (mem w') g s)
        = option_map fst (get_binding (mem w) g s)) /\
     (forall g s,
        s <> guild_id (ctx_guild ctx) \/
        group_of (mem w) (guild_id (ctx_guild ctx)) <> Some g ->
        get_binding (mem w') g s = get_binding (mem w) g s)) /\
  (forall env', 
     group_mappings
       (mem (run_world (enable_relay env' ctx
                          (run_world (disable_relay env ctx w)))))
     = group_mappings (mem w)).
Proof.
  split.
  - intros flag w'. subst w'.
    pose proof (switch_relay_mappings flag env ctx w) as Hm.
    repeat split.
    + exact Hm.
    + apply switch_relay_groups.
    + apply switch_relay_shape.
    + intros g s. unfold get_binding. rewrite Hm.
      destruct (Dict.get g (group_mappings (mem w))) as [chans|]; [|reflexivity].
      now destruct (Dict.get s chans).
    + intros g s Hother. unfold get_binding. rewrite Hm.
      destruct (Dict.get g (group_mappings (mem w))) as [chans|]; [|reflexivity].
      destruct (Dict.get s chans); [|reflexivity].
      now rewrite switch_relay_other_flags.
  - intro env'. unfold enable_relay, disable_relay.
    now rewrite !switch_relay_mappings.
Qed.

Lemma switch_relay_frame_witness :
  get_binding (mem Example.world_b_off) "alpha" 1
  = get_binding (mem Example.world_bound) "alpha" 1 /\
  group_mappings
    (mem (run_world (enable_relay Example.env_all Example.ctx_b
                       Example.world_b_off)))
  = group_mappings (mem Example.world_bound).
Proof.
  destruct (switch_relay_frame Example.env_all Example.ctx_b
              Example.world_bound) as [Hframe Hback].
  split.
  - apply (proj2 (proj2 (proj2 (proj2 (Hframe false)))) "alpha" 1).
    left. discriminate.
  - apply (Hback Example.env_all).
Defined.

(** In consistent tables the test of [enable_relay] and [disable_relay],
    which reads [relay_enabled], finds exactly the bindings, which live in
    [group_mappings]. *)
Lemma relay_slot_binding (st : State) (gid : Z) :
  consistent st ->
  relay_slot st gid
  = match group_of st gid with
    | Some g =>
        match get_binding st g gid with
        | Some _ => Some g
        | None => None
        end
    | None => None
    end.
Proof.
  intros [Hm Hg Hs Hn]. unfold relay_slot, group_of, get_binding.
  destruct (Dict.get gid (server_groups st)) as [g|]; [|reflexivity].
  pose proof (get_same_shape _ _ g Hs) as Hk.
  destruct (Py.truthy g) eqn:Et.
  - destruct (Dict.get g (group_mappings st)) as [chans|],
             (Dict.get g (relay_enabled st)) as [flags|];
      simpl in Hk; try discriminate; [|reflexivity].
    injection Hk as Hk. unfold Dict.mem.
    destruct (Dict.get gid chans) as [slot|] eqn:Ec.
    + apply DictFacts.get_Some_keys in Ec. rewrite Hk in Ec.
      destruct (Dict.get gid flags) eqn:Ef; [reflexivity|].
      apply DictFacts.get_None_keys in Ef. contradiction.
    + apply DictFacts.get_None_keys in Ec. rewrite Hk in Ec.
      apply DictFacts.get_None_keys in Ec. now rewrite Ec.
  - destruct g; [|discriminate].
    apply DictFacts.get_None_keys in Hn. now rewrite Hn.
Qed.

Lemma switch_relay_no_binding (flag : bool) (env : Env) (ctx : Ctx)
    (w : World) :
  consistent (mem w) ->
  (forall g, group_of (mem w) (guild_id (ctx_guild ctx)) = Some g ->
             get_binding (mem w) g (guild_id (ctx_guild ctx)) = None) ->
  switch_relay flag env ctx w = replies not_set_up w.
Proof.
  intros Hc Hnone. unfold switch_relay.
  rewrite (relay_slot_binding _ _ Hc).
  destruct (group_of (mem w) (guild_id (ctx_guild ctx))) as [g|]; [|reflexivity].
  now rewrite (Hnone g eq_refl).
Qed.

Lemma switch_relay_sets_flag (flag : bool) (env : Env) (ctx : Ctx)
    (w : World) (g : string) (slot : option Channel) (b : bool) :
  consistent (mem w) ->
  group_of (mem w) (guild_id (ctx_guild ctx)) = Some g ->
  get_binding (mem w) g (guild_id (ctx_guild ctx)) = Some (slot, b) ->
  get_binding (mem (run_world (switch_relay flag env ctx w))) g
    (guild_id (ctx_guild ctx)) = Some (slot, flag).
Proof.
  intros Hc Hg Hb.
  pose proof (relay_slot_binding _ (guild_id (ctx_guild ctx)) Hc) as Hr.
  rewrite Hg, Hb in Hr.
  destruct (relay_slot_inv _ _ _ Hr) as (_ & _ & flags & Hfl & _).
  unfold get_binding in *. rewrite switch_relay_mappings.
  destruct (Dict.get g (group_mappings (mem w))) as [chans|]; [|discriminate].
  destruct (Dict.get _ chans) as [slot'|]; [|discriminate].
  injection Hb as -> _. f_equal. f_equal.
  rewrite switch_relay_mem, Hr. unfold setitem2. rewrite Hfl.
  cbn [set_relay_enabled relay_enabled]. unfold Dict.get_default.
  now rewrite !DictFacts.get_set_same.
Qed.

(** C8. In a reachable world, [enable_relay] and [disable_relay] answer
    with the guidance text and leave memory and file as they are when the
    server has no binding in its group; when it has one they store [True],
    respectively [False], as its flag and keep its channel. *)
Theorem enable_disable_binding (env : Env) (ctx : Ctx) (w : World) :
  reachable w ->
  ((forall g, group_of (mem w) (guild_id (ctx_guild ctx)) = Some g ->
              get_binding (mem w) g (guild_id (ctx_guild ctx)) = None) ->
   enable_relay env ctx w = replies not_set_up w /\
   disable_relay env ctx w = replies not_set_up w) /\
  (forall g slot b,
     group_of (mem w) (guild_id (ctx_guild ctx)) = Some g ->
     get_binding (mem w) g (guild_id (ctx_guild ctx)) = Some (slot, b) ->
     get_binding (mem (run_world (enable_relay env ctx w))) g
       (guild_id (ctx_guild ctx)) = Some (slot, true) /\
     get_binding (mem (run_world (disable_relay env ctx w))) g
       (guild_id (ctx_guild ctx)) = Some (slot, false)).
Proof.
  intro Hr. destruct (reachable_ok _ Hr) as [Hc _]. split.
  - intro Hnone. split; now apply switch_relay_no_binding.
  - intros g slot b Hg Hb. split; now apply (switch_relay_sets_flag _ _ _ _ _ _ b).
Qed.

(** The example deployment is reachable. *)
Lemma world_bound_reachable : reachable Example.world_bound.
Proof.
  unfold Example.world_bound, Example.world_5, Example.world_4,
    Example.world_3, Example.world_2, Example.world_1.
  do 3 (eapply reachable_step; [|apply step_set_shared_channel];
        eapply reachable_step; [|apply step_set_group]).
  apply reachable_initial.
Qed.

Lemma world_reloaded_reachable : reachable Example.world_reloaded.
Proof.
  unfold Example.world_reloaded, Example.world_restarted.
  eapply reachable_step; [|apply step_on_ready].
  eapply reachable_step; [|apply step_restart].
  apply world_bound_reachable.
Qed.

Lemma enable_disable_binding_witness :
  enable_relay Example.env_all Example.ctx_a initial_world
  = replies not_set_up initial_world /\
  get_binding
    (mem (run_world (disable_relay Example.env_all Example.ctx_b
                       Example.world_bound)))
    "alpha" 2
  = Some (Some Example.chan_b, false).
Proof.
  split.
  - apply (proj1 (enable_disable_binding Example.env_all Example.ctx_a
                    initial_world reachable_initial)).
    intros g Hg. discriminate Hg.
  - apply (proj2 (enable_disable_binding Example.env_all Example.ctx_b
                    Example.world_bound world_bound_reachable)
             "alpha" (Some Example.chan_b) true); reflexivity.
Defined.

(** ** The round trip *)

(** C6. Let [x] be the settings document of a reachable world, all of
    whose channel ids the client resolves. Loading [x], into whatever
    tables, and saving what was loaded writes [x] again: the same groups,
    servers, channel ids and flags in the same order. *)
Theorem save_load_round_trip (env : Env) (w w0 : World) (x : Document) :
  reachable w ->
  file w = FileDoc x ->
  resolves env x = true ->
  disk env = DiskOk ->
  let loaded := fst (load_settings env (FileDoc x) (mem w0)) in
  run_outcome (save_settings env (set_mem loaded w0)) = Ok tt /\
  file (run_world (save_settings env (set_mem loaded w0))) = FileDoc x.
Proof.
  intros Hr Hx Hres Hdisk loaded. subst loaded.
  destruct (reachable_ok _ Hr) as [_ Hf].
  destruct (Hf x Hx) as (s & -> & Hs).
  rewrite (load_settings_dump env s (mem w0) Hs).
  unfold save_settings. cbn [fst set_mem mem].
  rewrite (save_data_loaded env s Hs Hres), Hdisk.
  split; reflexivity.
Qed.

Lemma save_load_round_trip_witness :
  run_outcome
    (save_settings Example.env_all
       (set_mem
          (fst (load_settings Example.env_all
                  (FileDoc
                     {| doc_group_mappings :=
                          Some [("alpha", [("1", 11); ("2", 22); ("3", 33)])];
                        doc_relay_enabled :=
                          Some [("alpha", [("1", true); ("2", true); ("3", true)])];
                        doc_server_groups :=
                          Some [("1", "alpha"); ("2", "alpha"); ("3", "alpha")] |})
                  (mem initial_world)))
          initial_world)) = Ok tt /\
  file
    (run_world
       (save_settings Example.env_all
          (set_mem
             (fst (load_settings Example.env_all
                     (FileDoc
                        {| doc_group_mappings :=
                             Some [("alpha", [("1", 11); ("2", 22); ("3", 33)])];
                           doc_relay_enabled :=
                             Some [("alpha", [("1", true); ("2", true); ("3", true)])];
                           doc_server_groups :=
                             Some [("1", "alpha"); ("2", "alpha"); ("3", "alpha")] |})
                     (mem initial_world)))
             initial_world)))
  = FileDoc
      {| doc_group_mappings :=
           Some [("alpha", [("1", 11); ("2", 22); ("3", 33)])];
         doc_relay_enabled :=
           Some [("alpha", [("1", true); ("2", true); ("3", true)])];
         doc_server_groups :=
           Some [("1", "alpha"); ("2", "alpha"); ("3", "alpha")] |}.
Proof.
  apply (save_load_round_trip Example.env_all Example.world_bound
           initial_world).
  - exact world_bound_reachable.
  - reflexivity.
  - reflexivity.
  - reflexivity.
Defined.

(** ** Fan-out *)

Lemma relay_tasks_target_set (message : Message) (origin : Guild)
    (flags : dict Z bool) (items : dict Z (option Channel)) :
  let targets :=
    filter (fun b => (negb (Z.eqb (fst (fst b)) (guild_id origin)) && snd b)%bool)
      (map (fun kv => (fst kv, snd kv, Dict.get_default (fst kv) false flags))
           items) in
  Forall (fun b => snd (fst b) <> None) targets ->
  exists tasks,
    relay_tasks message origin flags items = Ok tasks /\
    Forall2 (fun b t => snd (fst b) = Some (fst t) /\
                        snd t = relay_text message origin (fst t))
            targets tasks.
Proof.
  induction items as [|[k slot] items IH]; simpl; intro Hres.
  - exists []. split; [reflexivity | constructor].
  - destruct (negb (Z.eqb k (guild_id origin))
              && Dict.get_default k false flags)%bool eqn:Ef.
    + inversion Hres as [|b bs Hslot Hrest]; subst. simpl in Hslot.
      destruct slot as [c|]; [|congruence].
      destruct (IH Hrest) as (tasks & Ht & Hf). rewrite Ht. simpl.
      eexists. split; [reflexivity|]. constructor; [now split | exact Hf].
    + exact (IH Hres).
Qed.

(** X20. When every target of the group holds a channel, a message posted in
    the channel of the origin's enabled binding starts one task per target,
    in the order of the bindings, each with the text built for the guild of
    that target's channel. *)
Lemma handle_fans_out (send : Transport) (message : Message) (w : World)
    (origin : Guild) (g : string) (oc : Channel) :
  reachable w ->
  guild message = Some origin ->
  group_of (mem w) (guild_id origin) = Some g ->
  get_binding (mem w) g (guild_id origin) = Some (Some oc, true) ->
  channel message = channel_id oc ->
  Forall (fun b => snd (fst b) <> None)
    (target_set (mem w) g (guild_id origin)) ->
  exists tasks,
    handle send message w = gather send tasks w /\
    Forall2 (fun b t => snd (fst b) = Some (fst t) /\
                        snd t = relay_text message origin (fst t))
            (target_set (mem w) g (guild_id origin)) tasks.
Proof.
  intros Hr Hg Hgo Hb Hc Hres.
  destruct (reachable_ok _ Hr) as [[_ _ _ Hn] _].
  assert (Hm : mapping_slot (mem w) (guild_id origin) = Some (g, Some oc)).
  { unfold mapping_slot, group_of, get_binding in *. rewrite Hgo.
    destruct (Dict.get g (group_mappings (mem w))) as [chans|] eqn:Ec;
      [|discriminate].
    destruct (Dict.get (guild_id origin) chans) as [slot|]; [|discriminate].
    injection Hb as -> _.
    destruct g; [|reflexivity].
    apply DictFacts.get_Some_keys in Ec. contradiction. }
  assert (He : enabled_flag (mem w) g (guild_id origin) = Ok true).
  { unfold enabled_flag, get_binding, Dict.get_default in *.
    destruct (Dict.get g (group_mappings (mem w))) as [chans|]; [|discriminate].
    destruct (Dict.get (guild_id origin) chans); [|discriminate].
    destruct (Dict.get g (relay_enabled (mem w))); [congruence|].
    simpl in Hb. congruence. }
  rewrite (handle_eligible send message w origin g oc Hg Hm He Hc).
  destruct (relay_tasks_target_set message origin
              (Dict.get_default g [] (relay_enabled (mem w)))
              (Dict.get_default g [] (group_mappings (mem w))) Hres)
    as (tasks & Ht & Hf).
  rewrite Ht. now exists tasks.
Qed.

(** C1 fails on a reachable world. After a restart during which channel 33
    is unknown to the client, guild C keeps an enabled binding with an
    empty channel slot. A message posted in the bound channel of guild A
    then raises while the tasks are built, and guild B, whose binding is
    enabled and holds channel 22, is sent nothing. *)
Theorem handle_stops_at_unresolved_target :
  reachable Example.world_reloaded /\
  group_of (mem Example.world_reloaded) 1 = Some "alpha" /\
  get_binding (mem Example.world_reloaded) "alpha" 1
  = Some (Some Example.chan_a, true) /\
  get_binding (mem Example.world_reloaded) "alpha" 2
  = Some (Some Example.chan_b, true) /\
  target_set (mem Example.world_reloaded) "alpha" 1
  = [(2, Some Example.chan_b, true); (3, None, true)] /\
  channel Example.hello = channel_id Example.chan_a /\
  handle Example.send_ok Example.hello Example.world_reloaded
  = raises (AttributeError "guild") Example.world_reloaded.
Proof.
  split; [exact world_reloaded_reachable|]. repeat split.
Qed.

(** ** Loading a damaged document *)

(** A read that fails before any table is assigned leaves the tables as
    they were and prints the failure. *)
Lemma load_settings_unreadable (env : Env) (st : State) (e : exn) :
  load_settings env FileMissing st
  = (st, [Print "Settings file not found. Starting with empty settings."]) /\
  load_settings env (FileCorrupt e) st
  = (st, [PrintExn "Error loading settings: " e]).
Proof. split; reflexivity. Qed.

(** A write that fails raises into the command, which then sends no
    answer; the tables keep what the command stored. *)
Lemma save_then_reply_raises (env : Env) (text : string) (w : World) (e : exn) :
  run_outcome (save_settings env w) = Raise e ->
  run_outcome (save_then_reply env text w) = Raise e /\
  run_replies (save_then_reply env text w) = [] /\
  mem (run_world (save_then_reply env text w)) = mem w.
Proof.
  intro Hs. unfold save_then_reply. rewrite Hs. repeat split.
  - exact Hs.
  - unfold save_settings in *. destruct (save_data (mem w)); [|reflexivity].
    destruct (disk env); reflexivity || discriminate.
  - apply save_settings_mem.
Qed.

(** C7 fails for a read that raises after the first table was assigned:
    the document without its "relay_enabled" section replaces
    [group_mappings], then raises [KeyError]; the failure is printed, and
    the tables are left half loaded. This happens when the tables hold
    bindings, and also at start-up, when they are empty. *)
Theorem load_settings_half_loaded :
  load_settings Example.env_all (FileDoc Example.doc_no_flags)
    (mem Example.world_bound)
  = ({| group_mappings := [("alpha", [(1, Some Example.chan_a)])];
        relay_enabled := relay_enabled (mem Example.world_bound);
        server_groups := server_groups (mem Example.world_bound) |},
     [PrintExn "Error loading settings: " (KeyError "relay_enabled")]) /\
  group_mappings
    (fst (load_settings Example.env_all (FileDoc Example.doc_no_flags)
            (mem Example.world_bound)))
  <> group_mappings (mem Example.world_bound) /\
  load_settings Example.env_all (FileDoc Example.doc_no_flags) empty_state
  = ({| group_mappings := [("alpha", [(1, Some Example.chan_a)])];
        relay_enabled := [];
        server_groups := [] |},
     [PrintExn "Error loading settings: " (KeyError "relay_enabled")]).
Proof.
  split; [reflexivity|]. split; [|reflexivity]. intro Heq.
  apply (f_equal (fun gm => List.length (Dict.get_default "alpha" [] gm)))
    in Heq.
  vm_compute in Heq. discriminate Heq.
Qed.

(** ** Strings *)

Module StrFacts.

Lemma prefix_cons (a b : ascii) (x y : string) :
  String.prefix (String a x) (String b y)
  = (Ascii.eqb a b && String.prefix x y)%bool.
Proof.
  simpl. destruct (ascii_dec a b) as [->|Hn].
  - now rewrite Ascii.eqb_refl.
  - apply Ascii.eqb_neq in Hn. now rewrite Hn.
Qed.

Lemma prefix_nil_r (x : string) :
  String.prefix x EmptyString = match x with EmptyString => true | _ => false end.
Proof. now destruct x. Qed.

Lemma prefix_app (t y : string) : String.prefix t (t +++ y) = true.
Proof.
  induction t as [|a t IH]; simpl.
  - now destruct y.
  - destruct (ascii_dec a a); [exact IH | congruence].
Qed.

Lemma prefix_inv (t s : string) :
  String.prefix t s = true -> exists y, s = t +++ y.
Proof.
  revert s. induction t as [|a t IH]; intros s Hp.
  - now exists s.
  - destruct s as [|b s]; [discriminate|].
    rewrite prefix_cons in Hp. apply andb_prop in Hp. destruct Hp as [Hab Hp].
    apply Ascii.eqb_eq in Hab. subst b.
    destruct (IH s Hp) as [y ->]. now exists y.
Qed.

Lemma length_app (x y : string) :
  String.length (x +++ y) = (String.length x + String.length y)%nat.
Proof. induction x as [|a x IH]; simpl; congruence. Qed.

Lemma app_assoc (x y z : string) : (x +++ y) +++ z = x +++ (y +++ z).
Proof. induction x as [|a x IH]; simpl; congruence. Qed.

End StrFacts.

(** ** The two rewriters, unfolded *)

Lemma replace_from_skip (token new a y : string) :
  Py.replace_from token new (String.length a) (a +++ y)
  = Py.replace_from token new O y.
Proof.
  induction a as [|c a IH]; simpl.
  - reflexivity.
  - exact IH.
Qed.

Lemma replace_from_hit (c : ascii) (t new y : string) :
  Py.replace_from (String c t) new O (String c t +++ y)
  = new +++ Py.replace_from (String c t) new O y.
Proof.
  cbn [String.append Py.replace_from].
  change (String c (t +++ y)) with (String c t +++ y).
  rewrite StrFacts.prefix_app. cbn [String.length Nat.pred].
  now rewrite replace_from_skip.
Qed.

Lemma replace_from_miss (token new : string) (c : ascii) (r : string) :
  String.prefix token (String c r) = false ->
  Py.replace_from token new O (String c r)
  = String c (Py.replace_from token new O r).
Proof. intro Hp. cbn [Py.replace_from]. now rewrite Hp. Qed.

Section UnfoldTable.
Variable table : list (string * string).

Lemma rewrite_from_skip (a y : string) :
  rewrite_from table (String.length a) (a +++ y) = rewrite_from table O y.
Proof.
  induction a as [|c a IH]; simpl.
  - reflexivity.
  - exact IH.
Qed.

Lemma rewrite_from_hit (c : ascii) (t new y : string) :
  find (fun tn => String.prefix (fst tn) (String c t +++ y)) table
  = Some (String c t, new) ->
  rewrite_from table O (String c t +++ y)
  = new +++ rewrite_from table O y.
Proof.
  intro Hf. cbn [String.append rewrite_from].
  change (String c (t +++ y)) with (String c t +++ y).
  rewrite Hf. cbn [String.length Nat.pred].
  now rewrite rewrite_from_skip.
Qed.

Lemma rewrite_from_miss (c : ascii) (r : string) :
  find (fun tn => String.prefix (fst tn) (String c r)) table = None ->
  rewrite_from table O (String c r) = String c (rewrite_from table O r).
Proof. intro Hf. cbn [rewrite_from]. now rewrite Hf. Qed.

End UnfoldTable.

(** ** Tokens and inert names *)

Lemma is_digit_not (c : ascii) :
  is_digit c = true -> c <> "<"%char /\ c <> "@"%char /\ c <> ">"%char.
Proof. intro Hd. repeat split; intros ->; discriminate Hd. Qed.

Lemma all_digits_occurs (ds : string) (c : ascii) :
  all_digits ds = true -> is_digit c = false -> occurs c ds = false.
Proof.
  intros Hd Hc. induction ds as [|a ds IH]; simpl in *; [reflexivity|].
  apply andb_prop in Hd. destruct Hd as [Ha Hd].
  rewrite (IH Hd), orb_false_r. apply Ascii.eqb_neq. congruence.
Qed.

Lemma occurs_app (c : ascii) (x y : string) :
  occurs c (x +++ y) = (occurs c x || occurs c y)%bool.
Proof.
  induction x as [|a x IH]; simpl; [reflexivity|].
  now rewrite IH, orb_assoc.
Qed.

Lemma find_all_false {A} (f : A -> bool) (l : list A) :
  (forall a, In a l -> f a = false) -> find f l = None.
Proof.
  induction l as [|a l IH]; intro Hf; simpl; [reflexivity|].
  rewrite (Hf a (or_introl eq_refl)). apply IH.
  intros b Hb. apply Hf. now right.
Qed.

Lemma find_same {A} (f g : A -> bool) (l : list A) :
  (forall a, In a l -> f a = g a) -> find f l = find g l.
Proof.
  induction l as [|a l IH]; intro Hfg; simpl; [reflexivity|].
  rewrite (Hfg a (or_introl eq_refl)). destruct (g a); [reflexivity|].
  apply IH. intros b Hb. apply Hfg. now right.
Qed.

(** A text without "<" is copied by both rewriters. *)
Lemma rewrite_copy (table : list (string * string)) (x z : string) :
  (forall tn, In tn table -> is_token (fst tn)) ->
  occurs "<" x = false ->
  rewrite_from table O (x +++ z) = x +++ rewrite_from table O z.
Proof.
  intros Htok Hx. induction x as [|c x IH]; [reflexivity|].
  simpl in Hx. apply orb_false_elim in Hx. destruct Hx as [Hc Hx].
  cbn [String.append]. rewrite rewrite_from_miss; [now rewrite IH|].
  apply find_all_false. intros tn Hin.
  destruct (Htok tn Hin) as (ds & _ & ->).
  rewrite StrFacts.prefix_cons, Ascii.eqb_sym, Hc. reflexivity.
Qed.

Lemma replace_copy (t new x z : string) :
  occurs "<" x = false ->
  Py.replace_from (String "<" t) new O (x +++ z)
  = x +++ Py.replace_from (String "<" t) new O z.
Proof.
  intro Hx. induction x as [|c x IH]; [reflexivity|].
  simpl in Hx. apply orb_false_elim in Hx. destruct Hx as [Hc Hx].
  cbn [String.append]. rewrite replace_from_miss; [now rewrite IH|].
  rewrite StrFacts.prefix_cons, Ascii.eqb_sym, Hc. reflexivity.
Qed.

(** Replacing tokens by texts that start with "@" does not change whether
    a text without "<" and "@" is a prefix. *)
Lemma prefix_replace (t name x r : string) :
  occurs "<" x = false -> occurs "@" x = false ->
  String.prefix x (Py.replace_from (String "<" t) (String "@" name) O r)
  = String.prefix x r.
Proof.
  revert r. induction x as [|a x IH]; intros r Hlt Hat.
  - now destruct r; destruct (Py.replace_from _ _ _ _).
  - simpl in Hlt, Hat.
    apply orb_false_elim in Hlt. destruct Hlt as [Hlt Hlt'].
    apply orb_false_elim in Hat. destruct Hat as [Hat Hat'].
    destruct r as [|c r]; [reflexivity|].
    destruct (String.prefix (String "<" t) (String c r)) eqn:Hp.
    + destruct (StrFacts.prefix_inv _ _ Hp) as [y Hy].
      rewrite Hy, replace_from_hit. cbn [String.append].
      now rewrite !StrFacts.prefix_cons, Hlt, Hat.
    + rewrite replace_from_miss by exact Hp.
      now rewrite !StrFacts.prefix_cons, IH.
Qed.

(** Digits and ">" are never a prefix of an inert name and what follows. *)
Lemma inert_blocks (ds name rest : string) :
  all_digits ds = true -> leaves_digits name = true ->
  String.prefix (ds +++ ">") (name +++ rest) = false.
Proof.
  revert name. induction ds as [|d ds IH]; intros name Hd Hn;
    destruct name as [|c name]; try discriminate;
    cbn [String.append]; rewrite StrFacts.prefix_cons; simpl in Hn.
  - destruct (is_digit c) eqn:Hc.
    + destruct (is_digit_not _ Hc) as (_ & _ & Hgt).
      apply not_eq_sym, Ascii.eqb_neq in Hgt. now rewrite Hgt.
    + apply negb_true_iff in Hn. now rewrite Ascii.eqb_sym, Hn.
  - simpl in Hd. apply andb_prop in Hd. destruct Hd as [Hd Hds].
    destruct (is_digit c) eqn:Hc.
    + rewrite (IH name Hds Hn). apply andb_false_r.
    + assert (Hdc : d <> c) by congruence.
      apply Ascii.eqb_neq in Hdc. now rewrite Hdc.
Qed.

(** Whether a token is a prefix of a text that starts with a token does
    not depend on what follows. *)
Lemma digits_prefix_indep (ds ds' z y : string) :
  all_digits ds = true -> all_digits ds' = true ->
  String.prefix (ds +++ ">") ((ds' +++ ">") +++ z)
  = String.prefix (ds +++ ">") ((ds' +++ ">") +++ y).
Proof.
  revert ds'. induction ds as [|d ds IH]; intros ds' Hd Hd';
    destruct ds' as [|d' ds']; cbn [String.append];
    rewrite !StrFacts.prefix_cons.
  - now destruct z, y.
  - simpl in Hd'. apply andb_prop in Hd'. destruct Hd' as [Hd' _].
    destruct (is_digit_not _ Hd') as (_ & _ & Hgt).
    apply not_eq_sym, Ascii.eqb_neq in Hgt. now rewrite Hgt.
  - simpl in Hd. apply andb_prop in Hd. destruct Hd as [Hd _].
    destruct (is_digit_not _ Hd) as (_ & _ & Hgt).
    apply Ascii.eqb_neq in Hgt. now rewrite Hgt.
  - simpl in Hd, Hd'.
    apply andb_prop in Hd, Hd'. destruct Hd as [_ Hd], Hd' as [_ Hd'].
    now rewrite (IH ds' Hd Hd').
Qed.

Lemma token_prefix_indep (t t' z y : string) :
  is_token t -> is_token t' ->
  String.prefix t (t' +++ z) = String.prefix t (t' +++ y).
Proof.
  intros (ds & Hd & ->) (ds' & Hd' & ->). cbn [String.append].
  rewrite !StrFacts.prefix_cons. f_equal. f_equal.
  now apply digits_prefix_indep.
Qed.

(** Replacing one token first and rewriting with the rest of the table
    afterwards is rewriting with the whole table, when what is written for
    the token is inert. *)
Lemma rewrite_after_replace (t n : string) (table : list (string * string)) :
  is_token t -> is_inert_text n ->
  (forall tn, In tn table -> is_token (fst tn)) ->
  forall s,
    rewrite_from table O (Py.replace_from t n O s)
    = rewrite_from ((t, n) :: table) O s.
Proof.
  intros (ds & Hds & ->) (name & Hname & ->) Htab.
  set (t0 := String "@" (ds +++ ">")).
  unfold inert in Hname. apply andb_prop in Hname.
  destruct Hname as [Hlt Hleave]. apply negb_true_iff in Hlt.
  assert (Hlen : forall k s, (String.length s <= k)%nat ->
            rewrite_from table O
              (Py.replace_from (String "<" t0) (String "@" name) O s)
            = rewrite_from ((String "<" t0, String "@" name) :: table) O s).
  { induction k as [|k IH]; intros s Hk.
    - destruct s; [reflexivity | simpl in Hk; lia].
    - destruct s as [|c r]; [reflexivity|].
      destruct (String.prefix (String "<" t0) (String c r)) eqn:Hp.
      + (* the token to replace stands here *)
        destruct (StrFacts.prefix_inv _ _ Hp) as [y Hy]. rewrite Hy.
        assert (Hy' : (String.length y <= k)%nat).
        { apply (f_equal String.length) in Hy.
          rewrite StrFacts.length_app in Hy. simpl in Hy, Hk. lia. }
        rewrite replace_from_hit.
        rewrite (rewrite_copy table (String "@" name));
          [| exact Htab | exact Hlt].
        rewrite (IH y Hy').
        rewrite (rewrite_from_hit _ _ _ (String "@" name)); [reflexivity|].
        cbn [find fst]. now rewrite StrFacts.prefix_app.
      + destruct (find (fun tn => String.prefix (fst tn) (String c r)) table)
          as [[t' n']|] eqn:Hf.
        * (* another token stands here *)
          destruct (find_some _ _ Hf) as [Hin Hp']. cbn [fst] in Hp'.
          destruct (StrFacts.prefix_inv _ _ Hp') as [y Hy].
          pose proof (Htab _ Hin) as Ht'. cbn [fst] in Ht'.
          pose proof Ht' as (ds' & Hds' & Et').
          assert (Hy' : (String.length y <= k)%nat).
          { apply (f_equal String.length) in Hy.
            rewrite StrFacts.length_app, Et' in Hy. simpl in Hy, Hk. lia. }
          rewrite Hy in Hp, Hf |- *.
          assert (Hhit : forall z,
                    find (fun tn => String.prefix (fst tn) (t' +++ z)) table
                    = Some (t', n')).
          { intro z. rewrite <- Hf. apply find_same. intros tn Hin'.
            apply token_prefix_indep; [now apply Htab | exact Ht']. }
          assert (Hrep : Py.replace_from (String "<" t0) (String "@" name) O
                           (t' +++ y)
                         = t' +++ Py.replace_from (String "<" t0)
                                    (String "@" name) O y).
          { rewrite Et' in Hp |- *. cbn [String.append] in Hp |- *.
            rewrite replace_from_miss by exact Hp. f_equal.
            apply (replace_copy t0 _ (String "@" (ds' +++ ">"))).
            simpl. rewrite occurs_app, (all_digits_occurs ds' "<" Hds' eq_refl).
            reflexivity. }
          rewrite Hrep. clear Hrep.
          subst t'.
          rewrite (rewrite_from_hit _ _ _ n') by apply Hhit.
          rewrite (rewrite_from_hit _ _ _ n').
          -- now rewrite (IH y Hy').
          -- cbn [find fst]. rewrite Hp. apply Hhit.
        * (* no token stands here *)
          assert (Hr : (String.length r <= k)%nat) by (simpl in Hk; lia).
          rewrite replace_from_miss by exact Hp.
          rewrite (rewrite_from_miss ((String "<" t0, String "@" name) :: table));
            [| cbn [find fst]; now rewrite Hp].
          rewrite rewrite_from_miss; [now rewrite (IH r Hr)|].
          apply find_all_false. intros tn Hin.
          pose proof (find_none _ _ Hf tn Hin) as Hno. cbn beta in Hno.
          destruct (Htab tn Hin) as (ds' & Hds' & Et').
          rewrite Et' in Hno |- *.
          rewrite StrFacts.prefix_cons in Hno |- *.
          destruct (Ascii.eqb "<" c); [|reflexivity]. cbn [andb] in Hno |- *.
          assert (Hlt' : occurs "<" (ds' +++ ">") = false).
          { rewrite occurs_app, (all_digits_occurs ds' "<" Hds' eq_refl).
            reflexivity. }
          assert (Hat' : occurs "@" (ds' +++ ">") = false).
          { rewrite occurs_app, (all_digits_occurs ds' "@" Hds' eq_refl).
            reflexivity. }
          destruct r as [|c1 r1]; [reflexivity|].
          destruct (String.prefix (String "<" t0) (String c1 r1)) eqn:Hp1.
          -- destruct (StrFacts.prefix_inv _ _ Hp1) as [y Hy]. rewrite Hy.
             rewrite replace_from_hit.
             cbn [String.append]. rewrite StrFacts.prefix_cons.
             rewrite (inert_blocks ds' name _ Hds' Hleave).
             apply andb_false_r.
          -- rewrite replace_from_miss by exact Hp1.
             rewrite StrFacts.prefix_cons in Hno |- *.
             rewrite prefix_replace by assumption. exact Hno. }
  intro s. exact (Hlen (String.length s) s (le_n _)).
Qed.

(** ** Mention rewriting *)

(** X22. When the destination guild resolves none of the mentioned users,
    [format_mentions] returns the body as it is. *)
Lemma format_mentions_unresolved (message : Message) (body : string)
    (target_guild : Guild) :
  (forall u, In u (mentions message) ->
             get_member target_guild (user_id u) = None) ->
  format_mentions message body target_guild = body.
Proof.
  unfold format_mentions. revert body.
  induction (mentions message) as [|u us IH]; intros body Hnone; simpl.
  - reflexivity.
  - rewrite (Hnone u (or_introl eq_refl)).
    apply IH. intros u' Hin. apply Hnone. now right.
Qed.

(** With one token in the table, the single pass is [str.replace]. *)
Lemma rewrite_from_single (token new : string) (skip : nat) (body : string) :
  rewrite_from [(token, new)] skip body = Py.replace_from token new skip body.
Proof.
  revert skip. induction body as [|c r IH]; intro skip;
    cbn [rewrite_from Py.replace_from find fst].
  - reflexivity.
  - destruct skip as [|k]; [|apply IH].
    destruct (String.prefix token (String c r)); now rewrite IH.
Qed.

(** For a message that mentions one user, the code and the single pass
    agree, whatever the body and the display name. *)
Lemma format_mentions_single (message : Message) (body : string)
    (target_guild : Guild) (u : User) :
  mentions message = [u] ->
  format_mentions message body target_guild
  = rewrite_spec message body target_guild.
Proof.
  intro Hm. unfold format_mentions, rewrite_spec, replacements.
  rewrite Hm. cbn [fold_left flat_map].
  destruct (get_member target_guild (user_id u)) as [m|]; cbn [app].
  - rewrite app_nil_r, rewrite_from_single. reflexivity.
  - change ([] ++ []) with (@nil (string * string)).
    induction body as [|c r IH]; simpl; [reflexivity | now rewrite <- IH].
Qed.

Lemma all_digits_uint (d : uint) :
  all_digits (NilEmpty.string_of_uint d) = true.
Proof. induction d; simpl; [reflexivity | exact IHd ..]. Qed.

Lemma all_digits_str (n : Z) : 0 <= n -> all_digits (Py.str n) = true.
Proof.
  intro Hn. unfold Py.str. destruct n as [|p|p]; [reflexivity | | lia].
  simpl. rewrite PyFacts.nilzero_nonnil
    by apply DecimalPos.Unsigned.to_uint_nonnil.
  apply all_digits_uint.
Qed.

Lemma mention_token_is_token (uid : Z) : 0 <= uid -> is_token (mention_token uid).
Proof.
  intro Hu. exists (Py.str uid). split; [now apply all_digits_str | reflexivity].
Qed.

Lemma rewrite_from_nil (s : string) : rewrite_from [] O s = s.
Proof. induction s as [|c r IH]; simpl; congruence. Qed.

(** X21. Where every mentioned user has a user id that is not negative, and the
    display names of those the destination guild resolves are inert, the
    loop of [format_mentions] computes the single pass over the body: every
    token of a resolved user is replaced by "@" and the display name, and
    every other character is copied. *)
Lemma format_mentions_inert (message : Message) (body : string)
    (target_guild : Guild) :
  (forall u, In u (mentions message) -> 0 <= user_id u) ->
  (forall u m, In u (mentions message) ->
     get_member target_guild (user_id u) = Some m ->
     inert (member_display_name m) = true) ->
  format_mentions message body target_guild
  = rewrite_spec message body target_guild.
Proof.
  unfold format_mentions, rewrite_spec, replacements.
  revert body. induction (mentions message) as [|u us IH];
    intros body Hid Hinert.
  - simpl. now rewrite rewrite_from_nil.
  - assert (Htab : forall tn,
              In tn (flat_map
                       (fun user =>
                          match get_member target_guild (user_id user) with
                          | Some member =>
                              [(mention_token (user_id user),
                                "@" +++ member_display_name member)]
                          | None => []
                          end) us) ->
              is_token (fst tn)).
    { intros tn Hin. apply in_flat_map in Hin. destruct Hin as (v & Hv & Hin).
      destruct (get_member target_guild (user_id v)); [|contradiction].
      destruct Hin as [<-|[]]. apply mention_token_is_token.
      apply Hid. now right. }
    cbn [fold_left flat_map].
    rewrite IH;
      [| intros v Hv; apply Hid; now right
       | intros v m Hv; apply Hinert; now right].
    destruct (get_member target_guild (user_id u)) as [m|] eqn:Em;
      [|reflexivity].
    cbn [app].
    change (Py.replace (mention_token (user_id u))
              ("@" +++ member_display_name m) body)
      with (Py.replace_from (mention_token (user_id u))
              ("@" +++ member_display_name m) O body).
    apply rewrite_after_replace.
    + apply mention_token_is_token. apply Hid. now left.
    + exists (member_display_name m). split; [|reflexivity].
      apply (Hinert u m); [now left | exact Em].
    + exact Htab.
Qed.

(** C3 fails when two mentioned users are resolved and the display name of
    the first contains the mention token of the second: the loop replaces
    the users one after the other over the text produced so far, so the
    name written for the first user is rewritten with the second. *)
Theorem format_mentions_rescans :
  get_member Example.guild_tricky 1
  = Some {| member_id := 1; member_display_name := "<@2>" |} /\
  get_member Example.guild_tricky 2
  = Some {| member_id := 2; member_display_name := "Bob" |} /\
  format_mentions Example.two_mentions "<@1> <@2>" Example.guild_tricky
  = "@@Bob @Bob" /\
  rewrite_spec Example.two_mentions "<@1> <@2>" Example.guild_tricky
  = "@<@2> @Bob" /\
  inert "<@2>" = false.
Proof. repeat split. Qed.

(** * Part III: the commands and handlers, further properties *)

(** ** [set_group] *)

Lemma set_set {K V} `{EqKey K} (k : K) (v v' : V) (d : dict K V) :
  Dict.set k v' (Dict.set k v d) = Dict.set k v' d.
Proof.
  induction d as [|[k0 v0] d IH]; simpl.
  - now rewrite keqb_refl.
  - destruct (keqb k k0) eqn:E; simpl.
    + now rewrite keqb_refl.
    + now rewrite E, IH.
Qed.

Lemma set_group_mem (env : Env) (ctx : Ctx) (g : string) (w : World) :
  mem (run_world (set_group env ctx g w))
  = set_server_groups
      (Dict.set (guild_id (ctx_guild ctx)) g (server_groups (mem w))) (mem w).
Proof.
  unfold set_group. now rewrite save_then_reply_world, save_settings_mem.
Qed.

(** X1. After [set_group] the invoking server belongs to the given group,
    whether or not the settings could be saved; every other server keeps
    its group, and both binding tables are as before: a binding made under
    the old group is neither moved nor deleted. *)
Theorem set_group_assigns (env : Env) (ctx : Ctx) (g : string) (w : World) :
  let w' := run_world (set_group env ctx g w) in
  group_of (mem w') (guild_id (ctx_guild ctx)) = Some g /\
  (forall s, s <> guild_id (ctx_guild ctx) ->
             group_of (mem w') s = group_of (mem w) s) /\
  group_mappings (mem w') = group_mappings (mem w) /\
  relay_enabled (mem w') = relay_enabled (mem w).
Proof.
  intro w'. subst w'. rewrite set_group_mem. unfold group_of.
  cbn [set_server_groups server_groups group_mappings relay_enabled].
  repeat split.
  - apply DictFacts.get_set_same.
  - intros s Hs. apply DictFacts.get_set_other. congruence.
Qed.

Lemma set_group_assigns_witness :
  group_of (mem (run_world (set_group Example.env_all Example.ctx_a "beta"
                              Example.world_bound))) 2
  = group_of (mem Example.world_bound) 2.
Proof.
  apply (proj1 (proj2 (set_group_assigns Example.env_all Example.ctx_a "beta"
                         Example.world_bound))).
  discriminate.
Defined.

(** X2. A second [set_group] by the same server replaces the first: the
    tables are those of the second command alone, with the server's entry
    in the place it had. *)
Theorem set_group_overwrites (env1 env2 : Env) (ctx : Ctx) (g1 g2 : string)
    (w : World) :
  mem (run_world (set_group env2 ctx g2 (run_world (set_group env1 ctx g1 w))))
  = mem (run_world (set_group env2 ctx g2 w)).
Proof.
  rewrite !set_group_mem. unfold set_server_groups.
  cbn [server_groups group_mappings relay_enabled].
  now rewrite set_set.
Qed.




(** ** [set_shared_channel] *)

(** X4. Without a group, or with the empty string as group id,
    [set_shared_channel] only answers with the guidance text: it stores no
    binding and does not save. *)
Theorem set_shared_channel_needs_group (env : Env) (ctx : Ctx) (ch : Channel)
    (w : World) :
  group_of (mem w) (guild_id (ctx_guild ctx)) = None \/
  group_of (mem w) (guild_id (ctx_guild ctx)) = Some "" ->
  set_shared_channel env ctx ch w
  = replies
      "Please set a group ID for this server first using `/setgroup <group_id>`."
      w.
Proof.
  unfold set_shared_channel, group_of. now intros [-> | ->].
Qed.

Lemma set_shared_channel_needs_group_witness :
  set_shared_channel Example.env_all Example2.ctx_z Example2.chan_z
    Example.world_bound
  = replies
      "Please set a group ID for this server first using `/setgroup <group_id>`."
      Example.world_bound /\
  set_shared_channel Example.env_all Example2.ctx_z Example2.chan_z
    (run_world (set_group Example.env_all Example2.ctx_z "" Example.world_bound))
  = replies
      "Please set a group ID for this server first using `/setgroup <group_id>`."
      (run_world (set_group Example.env_all Example2.ctx_z "" Example.world_bound)).
Proof.
  split.
  - apply (set_shared_channel_needs_group Example.env_all Example2.ctx_z
             Example2.chan_z Example.world_bound).
    left. reflexivity.
  - apply (set_shared_channel_needs_group Example.env_all Example2.ctx_z
             Example2.chan_z).
    right. reflexivity.
Defined.

(** The tables after a bind, in consistent tables. *)
Lemma set_shared_channel_tables (env : Env) (ctx : Ctx) (ch : Channel)
    (w : World) (g : string) :
  consistent (mem w) ->
  group_of (mem w) (guild_id (ctx_guild ctx)) = Some g -> g <> "" ->
  let gid := guild_id (ctx_guild ctx) in
  let st' := mem (run_world (set_shared_channel env ctx ch w)) in
  group_mappings st'
  = Dict.set g (Dict.set gid (Some ch)
                  (Dict.get_default g [] (group_mappings (mem w))))
      (group_mappings (mem w)) /\
  relay_enabled st'
  = Dict.set g (Dict.set gid true
                  (Dict.get_default g [] (relay_enabled (mem w))))
      (relay_enabled (mem w)) /\
  server_groups st' = server_groups (mem w).
Proof.
  intros Hc Hg Hne gid st'. subst st' gid.
  unfold set_shared_channel. cbv zeta. unfold group_of in Hg. rewrite Hg.
  assert (Ht : Py.truthy g = true) by (destruct g; [congruence | reflexivity]).
  rewrite Ht. cbn [negb].
  pose proof (get_same_shape _ _ g (cons_shape _ Hc)) as Hk.
  unfold Dict.mem, Dict.get_default, setitem2.
  destruct (Dict.get g (group_mappings (mem w))) as [chans|] eqn:Ec.
  - destruct (Dict.get g (relay_enabled (mem w))) as [flags|] eqn:Ef;
      [|discriminate].
    rewrite Ec. cbn [set_group_mappings relay_enabled]. rewrite Ef.
    rewrite save_then_reply_world, save_settings_mem.
    cbn [set_mem mem set_relay_enabled set_group_mappings group_mappings
         relay_enabled server_groups].
    repeat split.
  - destruct (Dict.get g (relay_enabled (mem w))) as [flags|] eqn:Ef;
      [discriminate|].
    cbn [set_relay_enabled set_group_mappings group_mappings relay_enabled].
    rewrite !DictFacts.get_set_same.
    rewrite save_then_reply_world, save_settings_mem.
    cbn [set_mem mem set_relay_enabled set_group_mappings group_mappings
         relay_enabled server_groups].
    now rewrite !set_set.
Qed.

(** X5. In a reachable world, [set_shared_channel] by a server of group
    [g] leaves the server bound to the given channel with the flag [True],
    whatever its binding was before, also a disabled one. Every other
    binding and every group assignment is as before. *)
Theorem set_shared_channel_binds (env : Env) (ctx : Ctx) (ch : Channel)
    (w : World) (g : string) :
  reachable w ->
  group_of (mem w) (guild_id (ctx_guild ctx)) = Some g -> g <> "" ->
  let st' := mem (run_world (set_shared_channel env ctx ch w)) in
  get_binding st' g (guild_id (ctx_guild ctx)) = Some (Some ch, true) /\
  (forall g' s, g' <> g \/ s <> guild_id (ctx_guild ctx) ->
                get_binding st' g' s = get_binding (mem w) g' s) /\
  server_groups st' = server_groups (mem w).
Proof.
  intros Hr Hg Hne st'.
  destruct (reachable_ok _ Hr) as [Hc _].
  destruct (set_shared_channel_tables env ctx ch w g Hc Hg Hne)
    as (Hgm & Hre & Hsg).
  fold st' in Hgm, Hre, Hsg. clearbody st'.
  pose proof (get_same_shape _ _ g (cons_shape _ Hc)) as Hk.
  split; [|split; [|exact Hsg]].
  - unfold get_binding, Dict.get_default. rewrite Hgm, Hre.
    now rewrite !DictFacts.get_set_same.
  - intros g' s Hother. unfold get_binding, Dict.get_default.
    rewrite Hgm, Hre.
    destruct (keqb_spec g g') as [<-|Hn].
    + destruct Hother as [Hx|Hs]; [congruence|].
      rewrite !DictFacts.get_set_same.
      rewrite !DictFacts.get_set_other by congruence.
      unfold Dict.get_default.
      destruct (Dict.get g (group_mappings (mem w))) as [chans|],
               (Dict.get g (relay_enabled (mem w))) as [flags|];
        try discriminate; reflexivity.
    + now rewrite !DictFacts.get_set_other.
Qed.

Lemma set_shared_channel_binds_witness :
  get_binding
    (mem (run_world (set_shared_channel Example.env_all Example.ctx_b
                       Example.chan_b Example.world_b_off)))
    "alpha" 2
  = Some (Some Example.chan_b, true).
Proof.
  apply (proj1 (set_shared_channel_binds Example.env_all Example.ctx_b
                  Example.chan_b Example.world_b_off "alpha"
                  (reachable_step _ _ world_bound_reachable
                     (step_disable_relay Example.env_all Example.ctx_b
                        Example.world_bound))
                  eq_refl ltac:(discriminate))).
Defined.

(** X6. A bind keeps the order of the bindings of the group: a server that
    was bound keeps its place, a new one comes last; the bindings of other
    groups keep theirs. *)
Theorem set_shared_channel_order (env : Env) (ctx : Ctx) (ch : Channel)
    (w : World) (g : string) :
  reachable w ->
  group_of (mem w) (guild_id (ctx_guild ctx)) = Some g -> g <> "" ->
  let gid := guild_id (ctx_guild ctx) in
  let st' := mem (run_world (set_shared_channel env ctx ch w)) in
  (In gid (bound_servers (mem w) g) ->
   bound_servers st' g = bound_servers (mem w) g) /\
  (~ In gid (bound_servers (mem w) g) ->
   bound_servers st' g = bound_servers (mem w) g ++ [gid]) /\
  (forall g', g' <> g -> bound_servers st' g' = bound_servers (mem w) g').
Proof.
  intros Hr Hg Hne gid st'.
  destruct (reachable_ok _ Hr) as [Hc _].
  destruct (set_shared_channel_tables env ctx ch w g Hc Hg Hne)
    as (Hgm & _ & _).
  fold st' gid in Hgm. clearbody st'.
  unfold bound_servers, Dict.get_default. rewrite Hgm.
  repeat split.
  - intro Hin. rewrite DictFacts.get_set_same.
    now apply DictFacts.keys_set_present.
  - intro Hin. rewrite DictFacts.get_set_same.
    now apply DictFacts.keys_set_absent.
  - intros g' Hg'. rewrite DictFacts.get_set_other by congruence. reflexivity.
Qed.

Lemma set_shared_channel_order_witness :
  bound_servers
    (mem (run_world (set_shared_channel Example.env_all Example.ctx_a
                       Example.chan_c Example.world_bound)))
    "alpha"
  = [1; 2; 3].
Proof.
  apply (proj1 (set_shared_channel_order Example.env_all Example.ctx_a
                  Example.chan_c Example.world_bound "alpha"
                  world_bound_reachable eq_refl ltac:(discriminate))).
  vm_compute. tauto.
Defined.

(** ** [status] and [display] *)

(** In consistent tables the test of [status] and [on_message] finds the
    binding of the server in its group. *)
Lemma mapping_slot_consistent (st : State) (gid : Z) :
  consistent st ->
  mapping_slot st gid
  = match group_of st gid with
    | Some g => option_map (fun p => (g, fst p)) (get_binding st g gid)
    | None => None
    end.
Proof.
  intros [Hm Hg Hs Hn]. unfold mapping_slot, group_of, get_binding.
  destruct (Dict.get gid (server_groups st)) as [g|]; [|reflexivity].
  destruct (Py.truthy g) eqn:Et.
  - destruct (Dict.get g (group_mappings st)) as [chans|]; [|reflexivity].
    now destruct (Dict.get gid chans).
  - destruct g; [|discriminate].
    apply DictFacts.get_None_keys in Hn. now rewrite Hn.
Qed.

Lemma enabled_flag_consistent (st : State) (g : string) (gid : Z)
    (slot : option Channel) (b : bool) :
  consistent st ->
  get_binding st g gid = Some (slot, b) ->
  enabled_flag st g gid = Ok b.
Proof.
  intros Hc Hb. unfold get_binding, enabled_flag, Dict.get_default in *.
  pose proof (get_same_shape _ _ g (cons_shape _ Hc)) as Hk.
  destruct (Dict.get g (group_mappings st)) as [chans|]; [|discriminate].
  destruct (Dict.get gid chans); [|discriminate].
  destruct (Dict.get g (relay_enabled st)); [congruence | discriminate].
Qed.

(** X7. In a reachable world [status] never fails on a missing table
    entry. Without a binding in the server's group it says so; with a
    binding that holds a channel it reports the flag and the channel of
    that binding; with a binding whose channel slot is empty it raises
    [AttributeError] and answers nothing. *)
Theorem status_reports_binding (ctx : Ctx) (w : World) :
  reachable w ->
  let gid := guild_id (ctx_guild ctx) in
  ((forall g, group_of (mem w) gid = Some g ->
              get_binding (mem w) g gid = None) ->
   status ctx w
   = replies "No shared channel is set for this server in the specified group." w) /\
  (forall g ch b,
     group_of (mem w) gid = Some g ->
     get_binding (mem w) g gid = Some (Some ch, b) ->
     status ctx w
     = replies ("Relaying is currently " +++ status_word b +++
                ". Shared channel for group '" +++ g +++
                "' is " +++ channel_mention ch +++ ".") w) /\
  (forall g b,
     group_of (mem w) gid = Some g ->
     get_binding (mem w) g gid = Some (None, b) ->
     status ctx w = raises (AttributeError "mention") w).
Proof.
  intros Hr gid. destruct (reachable_ok _ Hr) as [Hc _].
  unfold status. cbv zeta. fold gid.
  rewrite (mapping_slot_consistent _ gid Hc).
  repeat split.
  - intro Hnone. destruct (group_of (mem w) gid) as [g|]; [|reflexivity].
    now rewrite (Hnone g eq_refl).
  - intros g ch b Hg Hb. rewrite Hg, Hb. cbn [option_map fst].
    now rewrite (enabled_flag_consistent _ _ _ _ _ Hc Hb).
  - intros g b Hg Hb. rewrite Hg, Hb. cbn [option_map fst].
    now rewrite (enabled_flag_consistent _ _ _ _ _ Hc Hb).
Qed.

Lemma status_reports_binding_witness :
  status Example.ctx_b Example.world_b_off
  = replies ("Relaying is currently " +++ status_word false +++
             ". Shared channel for group '" +++ "alpha" +++
             "' is " +++ channel_mention Example.chan_b +++ ".")
      Example.world_b_off /\
  status Example.ctx_c Example.world_reloaded
  = raises (AttributeError "mention") Example.world_reloaded.
Proof.
  split.
  - apply (proj1 (proj2 (status_reports_binding Example.ctx_b
                           Example.world_b_off
                           (reachable_step _ _ world_bound_reachable
                              (step_disable_relay Example.env_all Example.ctx_b
                                 Example.world_bound))))
             "alpha" Example.chan_b false); reflexivity.
  - apply (proj2 (proj2 (status_reports_binding Example.ctx_c
                           Example.world_reloaded world_reloaded_reachable))
             "alpha" true); reflexivity.
Defined.

Lemma display_lines_text (st : State) (g : string) (flags : dict Z bool)
    (chans : dict Z (option Channel)) (acc : string) :
  Dict.get g (relay_enabled st) = Some flags ->
  display_lines st g chans acc
  = match display_text
            (map (fun kv => (fst kv, snd kv,
                             Dict.get_default (fst kv) false flags)) chans) with
    | Some t => Ok (acc +++ t)
    | None => Raise (AttributeError "guild")
    end.
Proof.
  intro Hf. revert acc.
  induction chans as [|[k slot] chans IH]; intro acc;
    cbn [map display_text display_lines fst snd].
  - f_equal. induction acc as [|c acc IHa]; simpl; congruence.
  - unfold enabled_flag at 1. rewrite Hf. cbn [bind].
    destruct slot as [ch|]; [|reflexivity].
    change (display_lines st g chans
              (acc +++ display_line ch (Dict.get_default k false flags))
            = match option_map
                      (fun t => display_line ch
                                  (Dict.get_default k false flags) +++ t)
                      (display_text
                         (map (fun kv => (fst kv, snd kv,
                                          Dict.get_default (fst kv) false flags))
                              chans)) with
              | Some t => Ok (acc +++ t)
              | None => Raise (AttributeError "guild")
              end).
    rewrite IH.
    destruct (display_text _) as [t|]; [|reflexivity].
    cbn [option_map]. f_equal. apply StrFacts.app_assoc.
Qed.

(** X8. In a reachable world, for a server whose group has bindings,
    [display] answers with the heading and one line per binding of the
    group, in the order of the bindings, each with the guild name, the
    channel and the flag of that binding; when a binding of the group holds
    no channel it raises [AttributeError] and answers nothing. *)
Theorem display_lists_bindings (ctx : Ctx) (w : World) (g : string) :
  reachable w ->
  group_of (mem w) (guild_id (ctx_guild ctx)) = Some g ->
  list_bindings (mem w) g <> [] ->
  display ctx w
  = match display_text (list_bindings (mem w) g) with
    | Some t => replies (display_header g +++ t) w
    | None => raises (AttributeError "guild") w
    end.
Proof.
  intros Hr Hg Hne. destruct (reachable_ok _ Hr) as [Hc _].
  unfold display. cbv zeta. unfold group_of in Hg. rewrite Hg.
  unfold list_bindings, Dict.get_default in *.
  pose proof (get_same_shape _ _ g (cons_shape _ Hc)) as Hk.
  destruct (Dict.get g (group_mappings (mem w))) as [chans|] eqn:Ec;
    [|now contradiction Hne].
  assert (Ht : Py.truthy g = true).
  { destruct g; [|reflexivity]. apply DictFacts.get_Some_keys in Ec.
    now destruct (cons_named _ Hc). }
  rewrite Ht. cbn [negb].
  destruct (Dict.get g (relay_enabled (mem w))) as [flags|] eqn:Ef;
    [|discriminate].
  destruct chans as [|kv chans]; [now contradiction Hne|].
  rewrite (display_lines_text _ _ flags _ _ Ef).
  now destruct (display_text _).
Qed.

Lemma display_lists_bindings_witness :
  display Example.ctx_a Example.world_b_off
  = match display_text (list_bindings (mem Example.world_b_off) "alpha") with
    | Some t => replies (display_header "alpha" +++ t) Example.world_b_off
    | None => raises (AttributeError "guild") Example.world_b_off
    end.
Proof.
  apply (display_lists_bindings Example.ctx_a Example.world_b_off "alpha").
  - exact (reachable_step _ _ world_bound_reachable
             (step_disable_relay Example.env_all Example.ctx_b
                Example.world_bound)).
  - reflexivity.
  - discriminate.
Defined.

(** X9. For a server without a group, with the empty string as group id,
    or in a group without bindings, [display] answers that no channels are
    connected; this holds in every world, and the command reads no flag
    and no channel. *)
Theorem display_nothing_connected (ctx : Ctx) (w : World) :
  group_of (mem w) (guild_id (ctx_guild ctx)) = None \/
  (exists g, group_of (mem w) (guild_id (ctx_guild ctx)) = Some g /\
             (g = "" \/ bound_servers (mem w) g = [])) ->
  display ctx w
  = replies
      "No channels are currently connected for message relaying in the group for this server."
      w.
Proof.
  unfold display, group_of, bound_servers, Dict.get_default. cbv zeta.
  intros [-> | (g & -> & [-> | Hb])]; try reflexivity.
  destruct (Py.truthy g); [|reflexivity]. cbn [negb].
  destruct (Dict.get g (group_mappings (mem w))) as [[|kv chans]|];
    try reflexivity.
  discriminate Hb.
Qed.

Lemma display_nothing_connected_witness :
  display Example.ctx_a Example.world_1
  = replies
      "No channels are currently connected for message relaying in the group for this server."
      Example.world_1.
Proof.
  apply (display_nothing_connected Example.ctx_a Example.world_1).
  right. exists "alpha". split; [reflexivity | right; reflexivity].
Defined.

(** ** [save_settings], [load_settings] and [on_ready] *)

Section ComprehendErrors.
Context {A K V : Type} `{EqKey K} (f : A -> result (K * V)).

(** A comprehension raises what its first failing element raises. *)
Lemma comprehend_raises_some (l : list A) (acc : dict K V) :
  (exists a e, In a l /\ f a = Raise e) ->
  exists a e, In a l /\ f a = Raise e /\ comprehend f l acc = Raise e.
Proof.
  revert acc. induction l as [|a l IH]; intros acc (a0 & e0 & Hin & Hf).
  - contradiction.
  - simpl. destruct (f a) as [[k v]|e] eqn:Ea.
    + destruct Hin as [->|Hin]; [congruence|].
      destruct (IH (Dict.set k v acc) (ex_intro _ a0 (ex_intro _ e0 (conj Hin Hf))))
        as (a1 & e1 & Hin1 & Hf1 & Hc).
      exists a1, e1. split; [now right | split; assumption].
    + exists a, e. split; [now left | split; [assumption | reflexivity]].
Qed.

Lemma comprehend_total (l : list A) (acc : dict K V) :
  (forall a, In a l -> exists b, f a = Ok b) ->
  exists d, comprehend f l acc = Ok d.
Proof.
  revert acc. induction l as [|a l IH]; intros acc Hall; simpl.
  - now exists acc.
  - destruct (Hall a (or_introl eq_refl)) as [[k v] ->].
    apply IH. intros b Hb. apply Hall. now right.
Qed.

End ComprehendErrors.

Lemma save_ids_empty_slot (chans : dict Z (option Channel)) :
  (existsb (fun gc => match snd gc with Some _ => false | None => true end)
           chans = true ->
   save_ids chans = Raise (AttributeError "id")) /\
  (existsb (fun gc => match snd gc with Some _ => false | None => true end)
           chans = false ->
   exists ids, save_ids chans = Ok ids).
Proof.
  unfold save_ids. split; intro Hex.
  - apply existsb_exists in Hex. destruct Hex as ([k slot] & Hin & Hs).
    simpl in Hs. destruct slot; [discriminate|].
    destruct (comprehend_raises_some
                (fun gc : Z * option Channel =>
                   cid <- id_of (snd gc) ;; Ok (fst gc, cid))
                chans []
                (ex_intro _ (k, None)
                   (ex_intro _ (AttributeError "id") (conj Hin eq_refl))))
      as ([k' slot'] & e & _ & Hf & ->).
    simpl in Hf. destruct slot'; simpl in Hf; congruence.
  - apply comprehend_total. intros [k slot] Hin.
    destruct slot as [ch|].
    + now exists (k, channel_id ch).
    + assert (Ht : existsb
                     (fun gc : Z * option Channel =>
                        match snd gc with Some _ => false | None => true end)
                     chans = true).
      { apply existsb_exists. now exists (k, None). }
      congruence.
Qed.

Lemma save_data_empty_slot (st : State) :
  (has_empty_slot st = true -> save_data st = Raise (AttributeError "id")) /\
  (has_empty_slot st = false -> exists s, save_data st = Ok s).
Proof.
  unfold has_empty_slot, save_data, save_outer. split; intro Hex.
  - apply existsb_exists in Hex. destruct Hex as ([g chans] & Hin & Hs).
    simpl in Hs.
    destruct (comprehend_raises_some
                (fun kv : string * dict Z (option Channel) =>
                   i <- save_ids (snd kv) ;; Ok (fst kv, i))
                (group_mappings st) []) as ([g' chans'] & e & _ & Hf & Hc).
    { exists (g, chans), (AttributeError "id"). split; [exact Hin|].
      simpl. now rewrite (proj1 (save_ids_empty_slot chans) Hs). }
    rewrite Hc. simpl. f_equal. simpl in Hf.
    destruct (existsb
                (fun gc : Z * option Channel =>
                   match snd gc with Some _ => false | None => true end)
                chans') eqn:E.
    + rewrite (proj1 (save_ids_empty_slot chans') E) in Hf. simpl in Hf.
      congruence.
    + destruct (proj2 (save_ids_empty_slot chans') E) as [ids Hids].
      rewrite Hids in Hf. discriminate.
  - destruct (comprehend_total
                (fun kv : string * dict Z (option Channel) =>
                   i <- save_ids (snd kv) ;; Ok (fst kv, i))
                (group_mappings st) []) as [gm Hgm].
    { intros [g chans] Hin. simpl.
      destruct (existsb
                  (fun gc : Z * option Channel =>
                     match snd gc with Some _ => false | None => true end)
                  chans) eqn:E.
      - assert (Ht : existsb
                       (fun kv : string * dict Z (option Channel) =>
                          existsb
                            (fun gc : Z * option Channel =>
                               match snd gc with
                               | Some _ => false
                               | None => true
                               end) (snd kv))
                       (group_mappings st) = true).
        { apply existsb_exists. now exists (g, chans). }
        congruence.
      - destruct (proj2 (save_ids_empty_slot chans) E) as [ids ->].
        now exists (g, ids). }
    rewrite Hgm. simpl.
    destruct (comprehend_total
                (fun kv : string * dict Z bool =>
                   i <- save_flags (snd kv) ;; Ok (fst kv, i))
                (relay_enabled st) []) as [re Hre].
    { intros [g flags] _. simpl. unfold save_flags.
      destruct (comprehend_total
                  (fun gs : Z * bool => Ok (fst gs, snd gs)) flags [])
        as [d ->]; [|now exists (g, d)].
      intros gs _. now exists (fst gs, snd gs). }
    rewrite Hre. simpl. eauto.
Qed.

(** X10. [save_settings] raises [AttributeError] exactly when some binding
    holds no channel, whatever the disk would do, and then leaves the file
    as it is; with every slot filled and a disk that takes the write, it
    returns. So after a load that left a slot empty no command can save
    until that server is bound again. *)
Theorem save_settings_empty_slot (env : Env) (w : World) :
  (has_empty_slot (mem w) = true ->
   save_settings env w = raises (AttributeError "id") w) /\
  (has_empty_slot (mem w) = false -> disk env = DiskOk ->
   run_outcome (save_settings env w) = Ok tt).
Proof.
  unfold save_settings. split.
  - intro Hex. now rewrite (proj1 (save_data_empty_slot (mem w)) Hex).
  - intros Hex Hd. destruct (proj2 (save_data_empty_slot (mem w)) Hex) as [s ->].
    now rewrite Hd.
Qed.

Lemma save_settings_empty_slot_witness :
  save_settings Example.env_all Example.world_reloaded
  = raises (AttributeError "id") Example.world_reloaded /\
  run_outcome (save_settings Example.env_all Example.world_bound) = Ok tt.
Proof.
  split.
  - apply (proj1 (save_settings_empty_slot Example.env_all
                    Example.world_reloaded)).
    reflexivity.
  - apply (proj2 (save_settings_empty_slot Example.env_all
                    Example.world_bound)); reflexivity.
Defined.

(** X11. The program can always read back what it wrote: in a reachable
    world a settings file that holds a document loads without an error,
    whatever the client resolves. *)
Theorem own_file_loads (env : Env) (w : World) (x : Document) (st0 : State) :
  reachable w -> file w = FileDoc x ->
  snd (load_settings env (FileDoc x) st0)
  = [Print "Settings loaded successfully."].
Proof.
  intros Hr Hx. destruct (reachable_ok _ Hr) as [_ Hf].
  destruct (Hf x Hx) as (s & -> & Hs).
  now rewrite (load_settings_dump env s st0 Hs).
Qed.

Lemma own_file_loads_witness :
  snd (load_settings Example.env_lost_c (file Example.world_bound) empty_state)
  = [Print "Settings loaded successfully."].
Proof.
  apply (own_file_loads Example.env_lost_c Example.world_bound
           Example2.doc_bound empty_state world_bound_reachable eq_refl).
Defined.

Lemma in_get {K V} `{EqKey K} (k : K) (v : V) (d : dict K V) :
  NoDup (Dict.keys d) -> In (k, v) d -> Dict.get k d = Some v.
Proof.
  induction d as [|[k0 v0] d IH]; intros Hnd Hin; [contradiction|].
  simpl in *. inversion Hnd as [|? ? Hk0 Hnd']; subst.
  destruct Hin as [[= -> ->]|Hin].
  - now rewrite keqb_refl.
  - destruct (keqb_spec k k0) as [->|Hn]; [|now apply IH].
    exfalso. apply Hk0. apply (in_map fst) in Hin. exact Hin.
Qed.

(** X12. [on_ready] drops no entry of the settings file: in a reachable
    world every server entry of the document is a binding afterwards, with
    the channel that the client resolves the stored id to, and with an
    empty slot when the client does not know the id. *)
Theorem on_ready_keeps_entries (env : Env) (w : World) (x : Document)
    (gm : dict string (dict string Z)) (g key : string)
    (inner : dict string Z) (cid : Z) :
  reachable w -> file w = FileDoc x ->
  doc_group_mappings x = Some gm ->
  In (g, inner) gm -> In (key, cid) inner ->
  exists k b,
    Py.int key = Some k /\
    get_binding (mem (run_world (on_ready env w))) g k
    = Some (get_channel env cid, b).
Proof.
  intros Hr Hx Hgm Hg Hk. destruct (reachable_ok _ Hr) as [_ Hf].
  destruct (Hf x Hx) as (s & -> & Hs).
  unfold on_ready. rewrite Hx, (load_settings_dump env s (mem w) Hs).
  cbn [run_world set_mem mem]. simpl in Hgm. injection Hgm as <-.
  apply in_map_iff in Hg. destruct Hg as ([g0 chans] & [= <- <-] & Hg).
  simpl in Hk. unfold dump_keys in Hk. apply in_map_iff in Hk.
  destruct Hk as ([k cid0] & [= <- <-] & Hk). simpl.
  exists k, (Dict.get_default k false
               (Dict.get_default g0 [] (snap_relay_enabled s))).
  split; [apply PyFacts.int_str|].
  destruct Hs as [[Hnd Hall] _ _ _].
  unfold get_binding, state_of_snapshot.
  cbn [group_mappings relay_enabled].
  rewrite get_map_values, (in_get _ _ _ Hnd Hg). cbn [option_map].
  rewrite Forall_forall in Hall. specialize (Hall _ Hg). simpl in Hall.
  now rewrite get_map_values, (in_get _ _ _ Hall Hk).
Qed.

Lemma on_ready_keeps_entries_witness :
  exists k b,
    Py.int "3" = Some k /\
    get_binding (mem (run_world (on_ready Example.env_lost_c
                                   Example.world_restarted))) "alpha" k
    = Some (get_channel Example.env_lost_c 33, b).
Proof.
  apply (on_ready_keeps_entries Example.env_lost_c Example.world_restarted
           Example2.doc_bound
           [("alpha", [("1", 11); ("2", 22); ("3", 33)])] "alpha" "3"
           [("1", 11); ("2", 22); ("3", 33)] 33).
  - exact (reachable_step _ _ world_bound_reachable
             (step_restart Example.world_bound)).
  - reflexivity.
  - reflexivity.
  - left. reflexivity.
  - right. right. left. reflexivity.
Defined.

Lemma save_ids_resolved (env : Env) (chans : dict Z (option Channel))
    (ids : dict Z Z) :
  NoDup (Dict.keys chans) ->
  save_ids chans = Ok ids ->
  (forall gid slot, In (gid, slot) chans ->
     exists ch, slot = Some ch /\ get_channel env (channel_id ch) = Some ch) ->
  Dict.map_values (get_channel env) ids = chans.
Proof.
  intros Hnd Hs Hres.
  pose proof (save_ids_inv _ _ Hnd Hs) as Hkeys.
  unfold save_ids in Hs. apply comprehend_Forall2 in Hs.
  destruct Hs as (l' & Hf & ->).
  assert (Hk : Dict.keys l' = Dict.keys chans /\
               Dict.map_values (get_channel env) l' = chans).
  { clear Hnd Hkeys.
    induction Hf as [|[k slot] [k' cid] l l' Ha Hf IH]; simpl.
    - now split.
    - destruct (Hres k slot (or_introl eq_refl)) as (ch & -> & Hch).
      simpl in Ha. injection Ha as <- <-.
      destruct IH as [IH1 IH2].
      { intros gid slot Hin. apply (Hres gid slot). now right. }
      split; [now rewrite IH1 | now rewrite Hch, IH2]. }
  destruct Hk as [Hk Hm].
  rewrite DictFacts.fold_set_app; simpl; [exact Hm | now rewrite Hk].
Qed.

Lemma save_mappings_resolved (env : Env)
    (gm : dict string (dict Z (option Channel)))
    (out : dict string (dict Z Z)) :
  unique_keys2 gm ->
  save_outer save_ids gm = Ok out ->
  (forall g chans gid slot, In (g, chans) gm -> In (gid, slot) chans ->
     exists ch, slot = Some ch /\ get_channel env (channel_id ch) = Some ch) ->
  Dict.map_values (Dict.map_values (get_channel env)) out = gm.
Proof.
  intros [Hk Hall] Hs Hres. unfold save_outer in Hs.
  apply comprehend_Forall2 in Hs. destruct Hs as (l' & Hf & ->).
  assert (Hl : Dict.keys l' = Dict.keys gm /\
               Dict.map_values (Dict.map_values (get_channel env)) l' = gm).
  { clear Hk.
    induction Hf as [|[g chans] [g' ids] l l' Ha Hf IH]; simpl.
    - now split.
    - inversion Hall as [|? ? Hc Hall']; subst. simpl in Hc, Ha.
      destruct (save_ids chans) as [i|e] eqn:Ei; simpl in Ha; [|discriminate].
      injection Ha as <- <-.
      destruct (IH Hall') as [IH1 IH2].
      { intros g0 c0 gid slot Hin. apply (Hres g0 c0 gid slot). now right. }
      split; [now rewrite IH1|].
      rewrite IH2. f_equal. f_equal.
      apply (save_ids_resolved env chans i Hc Ei).
      intros gid slot Hin. apply (Hres g chans gid slot); [now left | exact Hin]. }
  destruct Hl as [Hl Hm].
  rewrite DictFacts.fold_set_app; simpl; [exact Hm | now rewrite Hl].
Qed.

(** X13. What a successful save wrote brings the tables back after a
    restart: in a reachable world, when [save_settings] returned and the
    client of the next run resolves the id of every bound channel to that
    channel, [on_ready] after the restart rebuilds the three tables exactly
    as they were, in the same order. *)
Theorem restart_restores_tables (env env' : Env) (w : World) :
  reachable w ->
  run_outcome (save_settings env w) = Ok tt ->
  resolves_tables env' (mem w) ->
  mem (run_world
         (on_ready env' (set_mem empty_state (run_world (save_settings env w)))))
  = mem w.
Proof.
  intros Hr Hok Hres. destruct (reachable_ok _ Hr) as [Hc _].
  unfold save_settings in *.
  destruct (save_data (mem w)) as [s|e] eqn:Es; [|discriminate].
  destruct (disk env); try discriminate.
  pose proof (save_data_inv _ _ Hc Es) as Hs.
  unfold on_ready. cbn [run_world set_file set_mem file mem].
  rewrite (load_settings_dump env' s empty_state Hs).
  cbn [run_world set_mem mem].
  unfold save_data in Es.
  destruct (save_outer save_ids (group_mappings (mem w))) as [gm|] eqn:Egm;
    [|discriminate].
  simpl in Es.
  rewrite (save_outer_flags_copy _
             (unique_keys2_same_shape _ _ (cons_shape _ Hc) (cons_mappings _ Hc)))
    in Es.
  simpl in Es. injection Es as <-.
  unfold state_of_snapshot. cbn [snap_group_mappings snap_relay_enabled
                                  snap_server_groups].
  rewrite (save_mappings_resolved env' _ _ (cons_mappings _ Hc) Egm Hres).
  now destruct (mem w).
Qed.

Lemma restart_restores_tables_witness :
  mem (run_world
         (on_ready Example.env_all
            (set_mem empty_state
               (run_world (save_settings Example.env_all Example.world_bound)))))
  = mem Example.world_bound.
Proof.
  apply (restart_restores_tables Example.env_all Example.env_all
           Example.world_bound world_bound_reachable eq_refl).
  intros g chans gid slot Hg Hs.
  destruct Hg as [[= <- <-]|[]].
  destruct Hs as [[= <- <-]|[[= <- <-]|[[= <- <-]|[]]]];
    eexists; split; reflexivity.
Defined.

Lemma load_inner_bad_key {A B} (f : A -> B) (v : dict string A) :
  (exists key a, In (key, a) v /\ Py.int key = None) ->
  exists key, Py.int key = None /\ load_inner f v = Raise (ValueError key).
Proof.
  intros (key & a & Hin & Hk). unfold load_inner.
  destruct (comprehend_raises_some
              (fun kv : string * A =>
                 gid <- int_key (fst kv) ;; Ok (gid, f (snd kv)))
              v [])
    as ([key' a'] & e & _ & Hf & Hc).
  { exists (key, a), (ValueError key). split; [exact Hin|].
    simpl. unfold int_key. now rewrite Hk. }
  simpl in Hf. unfold int_key in Hf.
  destruct (Py.int key') eqn:Ek; simpl in Hf; [discriminate|].
  injection Hf as <-. now exists key'.
Qed.

(** X14. An ASCII server key of the "group_mappings" section that [int]
    does not accept (a word, an empty key, a key with a separator 28 to 31
    around the number) stops the load at its first table: [load_settings]
    prints a [ValueError] for a key that [int] does not accept, and leaves
    all three tables as they were. *)
Theorem load_settings_bad_server_key (env : Env) (d : Document) (st : State)
    (gm : dict string (dict string Z)) (g key : string)
    (inner : dict string Z) (cid : Z) :
  doc_group_mappings d = Some gm ->
  In (g, inner) gm -> In (key, cid) inner ->
  Py.is_ascii key = true -> Py.int key = None ->
  exists key',
    Py.int key' = None /\
    load_settings env (FileDoc d) st
    = (st, [PrintExn "Error loading settings: " (ValueError key')]).
Proof.
  intros Hgm Hg Hk _ Hint.
  unfold load_settings, load_group_mappings. rewrite Hgm. simpl.
  unfold load_outer.
  destruct (comprehend_raises_some
              (fun kv : string * dict string Z =>
                 i <- load_inner (get_channel env) (snd kv) ;; Ok (fst kv, i))
              gm [])
    as ([g' inner'] & e & _ & Hf & Hc).
  { destruct (load_inner_bad_key (get_channel env) inner)
      as (key' & _ & Hl); [now exists key, cid|].
    exists (g, inner), (ValueError key'). split; [exact Hg|].
    simpl. now rewrite Hl. }
  rewrite Hc. simpl in Hf.
  destruct (load_inner (get_channel env) inner') as [i|e'] eqn:El;
    simpl in Hf; [discriminate|].
  injection Hf as <-.
  unfold load_inner in El.
  destruct (comprehend (fun kv : string * Z =>
                          gid <- int_key (fst kv) ;;
                          Ok (gid, get_channel env (snd kv))) inner' [])
    eqn:Ec; [discriminate|].
  injection El as <-.
  assert (Hex : exists key', Py.int key' = None /\ e = ValueError key').
  { clear - Ec. revert Ec. generalize (@nil (Z * option Channel)).
    induction inner' as [|[k c] inner' IH]; intros acc Ec; simpl in Ec;
      [discriminate|].
    unfold int_key in Ec. destruct (Py.int k) eqn:Ek; simpl in Ec.
    - exact (IH _ Ec).
    - injection Ec as <-. now exists k. }
  destruct Hex as (key' & Hk' & ->). now exists key'.
Qed.

Lemma load_settings_bad_server_key_witness :
  exists key',
    Py.int key' = None /\
    load_settings Example.env_all (FileDoc Example2.doc_bad_key)
      (mem Example.world_bound)
    = (mem Example.world_bound,
       [PrintExn "Error loading settings: " (ValueError key')]).
Proof.
  apply (load_settings_bad_server_key Example.env_all Example2.doc_bad_key
           (mem Example.world_bound)
           [("alpha", [("1", 11); ("two", 22)])] "alpha" "two"
           [("1", 11); ("two", 22)] 22).
  - reflexivity.
  - left. reflexivity.
  - right. left. reflexivity.
  - reflexivity.
  - reflexivity.
Defined.

(** ** Relaying *)

Lemma relay_message_sends_once (send : Transport) (c : Channel) (text : string) :
  sends_of (snd (relay_message send c text)) = [(c, text)].
Proof.
  unfold relay_message. destruct (send c text) as [|e]; [reflexivity|].
  now destruct (is_http e).
Qed.

Lemma relay_tasks_ok_targets (message : Message) (origin : Guild)
    (flags : dict Z bool) (items : dict Z (option Channel))
    (tasks : list (Channel * string)) :
  relay_tasks message origin flags items = Ok tasks ->
  Forall2 (fun b t => snd (fst b) = Some (fst t) /\
                      snd t = relay_text message origin (fst t))
    (filter (fun b => (negb (Z.eqb (fst (fst b)) (guild_id origin)) && snd b)%bool)
       (map (fun kv => (fst kv, snd kv, Dict.get_default (fst kv) false flags))
            items))
    tasks.
Proof.
  revert tasks. induction items as [|[k slot] items IH]; intros tasks Ht;
    simpl in *.
  - injection Ht as <-. constructor.
  - destruct (negb (Z.eqb k (guild_id origin))
              && Dict.get_default k false flags)%bool.
    + destruct slot as [c|]; [|discriminate].
      destruct (relay_tasks message origin flags items) as [ts|]; [|discriminate].
      simpl in Ht. injection Ht as <-.
      constructor; [now split | now apply IH].
    + now apply IH.
Qed.

(** X15. Whatever the tables, the message and the transport, the relay
    part of [on_message] either starts no task at all or starts exactly one
    task per binding of the target set of the origin's group, in the order
    of the bindings, and that task makes exactly one send, to the channel
    of that binding, of the text built for it. Nothing is sent to the
    origin's own binding, to a binding that is switched off, or twice to
    one binding. *)
Theorem handle_sends_target_set (send : Transport) (message : Message)
    (w : World) :
  run_tasks (handle send message w) = [] \/
  exists origin g,
    guild message = Some origin /\
    group_of (mem w) (guild_id origin) = Some g /\
    Forall2
      (fun b trace =>
         exists ch, snd (fst b) = Some ch /\
                    sends_of trace = [(ch, relay_text message origin ch)])
      (target_set (mem w) g (guild_id origin))
      (run_tasks (handle send message w)).
Proof.
  unfold handle.
  destruct (guild message) as [origin|]; [|now left].
  destruct (mapping_slot (mem w) (guild_id origin)) as [[g slot]|] eqn:Em;
    [|now left].
  destruct (enabled_flag (mem w) g (guild_id origin)) as [[|]|e];
    try now left.
  destruct slot as [oc|]; [|now left].
  destruct (Z.eqb (channel message) (channel_id oc)); [|now left].
  destruct (relay_tasks _ _ _ _) as [tasks|e] eqn:Et; [|now left].
  right. exists origin, g. split; [reflexivity|].
  split; [exact (proj1 (mapping_slot_inv _ _ _ _ Em))|].
  apply relay_tasks_ok_targets in Et.
  unfold target_set, list_bindings, gather. cbn [run_tasks].
  rewrite map_map.
  induction Et as [|b [c text] bs ts [Hb Ht] _ IH]; simpl; constructor.
  - exists c. simpl in Hb, Ht. split; [exact Hb|].
    rewrite relay_message_sends_once. now rewrite Ht.
  - exact IH.
Qed.

Lemma first_raise_some (rs : list (result unit)) :
  (exists e, In (Raise e) rs) ->
  exists e, In (Raise e) rs /\ first_raise rs = Raise e.
Proof.
  unfold first_raise. induction rs as [|r rs IH]; intros (e & Hin).
  - contradiction.
  - simpl. destruct r as [u|e'].
    + destruct Hin as [Hin|Hin]; [discriminate|].
      destruct (IH (ex_intro _ e Hin)) as (e1 & Hin1 & Hf).
      exists e1. split; [now right | exact Hf].
    + exists e'. split; [now left | reflexivity].
Qed.

(** X16. A send that fails with something else than an HTTP error is not
    caught: [relay_message] raises it without a log line and without the
    pause, and the relay part of [on_message] raises an error of that kind
    out of the gather. The other tasks are not cancelled: every task still
    makes its one send, and the tables are untouched. *)
Theorem handle_raises_other_failure (send : Transport) (message : Message)
    (w : World) (origin : Guild) (g : string) (oc : Channel)
    (tasks : list (Channel * string)) :
  guild message = Some origin ->
  mapping_slot (mem w) (guild_id origin) = Some (g, Some oc) ->
  enabled_flag (mem w) g (guild_id origin) = Ok true ->
  channel message = channel_id oc ->
  relay_tasks message origin
    (Dict.get_default g [] (relay_enabled (mem w)))
    (Dict.get_default g [] (group_mappings (mem w))) = Ok tasks ->
  (exists t e, In t tasks /\ send (fst t) (snd t) = SendFails e /\
               is_http e = false) ->
  (exists e, run_outcome (handle send message w) = Raise e /\
             is_http e = false) /\
  Forall2 (fun t trace => sends_of trace = [t])
    tasks (run_tasks (handle send message w)) /\
  (forall t e, In t tasks -> send (fst t) (snd t) = SendFails e ->
               is_http e = false ->
               relay_message send (fst t) (snd t)
               = (Raise e, [ESend (fst t) (snd t)])).
Proof.
  intros Hg Hm He Hc Ht (t & e & Hin & Hs & Hh).
  rewrite (handle_eligible send message w origin g oc Hg Hm He Hc), Ht.
  unfold gather. cbn [run_outcome run_tasks]. rewrite !map_map.
  split; [|split].
  - destruct (first_raise_some
                (map (fun x => fst (relay_message send (fst x) (snd x))) tasks))
      as (e1 & Hin1 & Hf).
    { exists e. apply in_map_iff. exists t. split; [|exact Hin].
      unfold relay_message. now rewrite Hs, Hh. }
    exists e1. split; [exact Hf|].
    apply in_map_iff in Hin1. destruct Hin1 as (t1 & Hr & _).
    unfold relay_message in Hr. destruct (send (fst t1) (snd t1)) as [|e2];
      [discriminate|].
    destruct (is_http e2) eqn:E2; [discriminate|].
    simpl in Hr. congruence.
  - clear. induction tasks as [|[c text] tasks IH]; simpl; constructor.
    + apply relay_message_sends_once.
    + exact IH.
  - intros t' e' _ Hs' Hh'. unfold relay_message. now rewrite Hs', Hh'.
Qed.

Lemma handle_raises_other_failure_witness :
  (exists e, run_outcome (handle Example2.send_b_broken Example.hello
                            Example.world_bound) = Raise e /\
             is_http e = false) /\
  Forall2 (fun t trace => sends_of trace = [t])
    [(Example.chan_b, "[GuildA] X: hello @Bob");
     (Example.chan_c, "[GuildA] X: hello <@123>")]
    (run_tasks (handle Example2.send_b_broken Example.hello
                  Example.world_bound)).
Proof.
  destruct (handle_raises_other_failure Example2.send_b_broken Example.hello
              Example.world_bound Example.guild_a "alpha" Example.chan_a
              [(Example.chan_b, "[GuildA] X: hello @Bob");
               (Example.chan_c, "[GuildA] X: hello <@123>")]
              eq_refl eq_refl eq_refl eq_refl eq_refl) as (H1 & H2 & _).
  - exists (Example.chan_b, "[GuildA] X: hello @Bob"), (ConnectionError "reset").
    split; [now left | split; reflexivity].
  - split; [exact H1 | exact H2].
Defined.

(** The flag of the invoking server reads [False] after [disable_relay]. *)
Lemma disable_relay_flag_off (env : Env) (ctx : Ctx) (w : World) (g : string) :
  consistent (mem w) ->
  group_of (mem w) (guild_id (ctx_guild ctx)) = Some g ->
  Dict.get_default (guild_id (ctx_guild ctx)) false
    (Dict.get_default g []
       (relay_enabled (mem (run_world (disable_relay env ctx w)))))
  = false.
Proof.
  intros Hc Hg. unfold disable_relay. rewrite switch_relay_mem.
  destruct (relay_slot (mem w) (guild_id (ctx_guild ctx))) as [g0|] eqn:Er.
  - destruct (relay_slot_inv _ _ _ Er) as (Hsg & _ & flags & Hfl & _).
    unfold group_of in Hg. assert (g0 = g) by congruence. subst g0.
    unfold setitem2. rewrite Hfl. cbn [set_relay_enabled relay_enabled].
    unfold Dict.get_default. now rewrite !DictFacts.get_set_same.
  - unfold relay_slot in Er. unfold group_of in Hg. rewrite Hg in Er.
    unfold Dict.get_default.
    destruct (Py.truthy g) eqn:Et.
    + destruct (Dict.get g (relay_enabled (mem w))) as [flags|];
        [|reflexivity].
      unfold Dict.mem in Er.
      destruct (Dict.get (guild_id (ctx_guild ctx)) flags);
        [discriminate | reflexivity].
    + destruct g; [|discriminate].
      pose proof (cons_named _ Hc) as Hn.
      rewrite (keys_same_shape _ _ (cons_shape _ Hc)) in Hn.
      apply DictFacts.get_None_keys in Hn. now rewrite Hn.
Qed.



(** X18. Commands run before the relay reads the tables: in a reachable
    world, when the command framework runs [disable_relay] of the origin
    server for a message, that message is not relayed, although the binding
    was enabled when it was posted. *)
Theorem disable_command_not_relayed (process_commands : CommandFramework)
    (env env' : Env) (send : Transport) (message : Message) (w : World)
    (origin : Guild) (ctx : Ctx) (answers : list string)
    (console : list Output) :
  reachable w ->
  guild message = Some origin ->
  guild_id (ctx_guild ctx) = guild_id origin ->
  process_commands message w
  = (run_world (disable_relay env' ctx w), answers, console) ->
  run_tasks (on_message process_commands env send message w) = [].
Proof.
  intros Hr Hg Hctx Hpc. unfold on_message.
  destruct (Z.eqb _ _); [reflexivity|].
  rewrite Hpc. cbn [run_tasks].
  set (w1 := run_world (disable_relay env' ctx w)).
  assert (Hr1 : reachable w1)
    by exact (reachable_step _ _ Hr (step_disable_relay env' ctx w)).
  destruct (reachable_ok _ Hr) as [Hc _].
  destruct (reachable_ok _ Hr1) as [Hc1 _].
  unfold handle. rewrite Hg.
  destruct (mapping_slot (mem w1) (guild_id origin)) as [[g slot]|] eqn:Em;
    [|reflexivity].
  destruct (mapping_slot_inv _ _ _ _ Em) as (Hg1 & _ & chans & Hch & Hs).
  assert (Hg0 : group_of (mem w) (guild_id (ctx_guild ctx)) = Some g).
  { rewrite Hctx. unfold group_of in *. subst w1.
    unfold disable_relay in Hg1. now rewrite switch_relay_groups in Hg1. }
  pose proof (disable_relay_flag_off env' ctx w g Hc Hg0) as Hoff.
  fold w1 in Hoff. rewrite Hctx in Hoff.
  unfold enabled_flag.
  destruct (Dict.get g (relay_enabled (mem w1))) as [flags|] eqn:Ef;
    [|reflexivity].
  unfold Dict.get_default in Hoff at 2. rewrite Ef in Hoff.
  now rewrite Hoff.
Qed.

Lemma disable_command_not_relayed_witness :
  run_tasks (on_message Example2.runs_disable_a Example.env_all
               Example.send_ok Example.hello Example.world_bound) = [].
Proof.
  apply (disable_command_not_relayed Example2.runs_disable_a Example.env_all
           Example.env_all Example.send_ok Example.hello Example.world_bound
           Example.guild_a Example.ctx_a
           (run_replies (disable_relay Example.env_all Example.ctx_a
                           Example.world_bound))
           (run_console (disable_relay Example.env_all Example.ctx_a
                           Example.world_bound))
           world_bound_reachable eq_refl eq_refl eq_refl).
Defined.

(** ** What every reachable world keeps *)

(** X19. The commands, the restart and the load keep the tables aligned:
    in every reachable world [group_mappings] and [relay_enabled] have the
    same groups in the same order and, in each group, the same servers in
    the same order; no group and no server of a group occurs twice; each
    server has one group assignment; and no binding is stored under the
    empty group id. *)
Theorem reachable_tables_aligned (w : World) :
  reachable w ->
  Dict.keys (group_mappings (mem w)) = Dict.keys (relay_enabled (mem w)) /\
  (forall g, bound_servers (mem w) g
             = Dict.keys (Dict.get_default g [] (relay_enabled (mem w)))) /\
  NoDup (Dict.keys (group_mappings (mem w))) /\
  (forall g, NoDup (bound_servers (mem w) g)) /\
  NoDup (Dict.keys (server_groups (mem w))) /\
  bound_servers (mem w) "" = [].
Proof.
  intro Hr. destruct (reachable_ok _ Hr) as [[[Hk Hall] Hg Hs Hn] _].
  split; [exact (keys_same_shape _ _ Hs)|].
  split; [|split; [exact Hk | split; [|split; [exact Hg|]]]].
  - intro g. unfold bound_servers, Dict.get_default.
    pose proof (get_same_shape _ _ g Hs) as Hgs.
    destruct (Dict.get g (group_mappings (mem w))),
             (Dict.get g (relay_enabled (mem w)));
      simpl in Hgs; try discriminate; [now injection Hgs | reflexivity].
  - intro g. unfold bound_servers, Dict.get_default.
    destruct (Dict.get g (group_mappings (mem w))) as [chans|] eqn:Ec;
      [|constructor].
    exact (unique_keys2_get _ _ _ (conj Hk Hall) Ec).
  - unfold bound_servers, Dict.get_default.
    apply DictFacts.get_None_keys in Hn. now rewrite Hn.
Qed.

Lemma reachable_tables_aligned_witness :
  Dict.keys (group_mappings (mem Example.world_reloaded))
  = Dict.keys (relay_enabled (mem Example.world_reloaded)) /\
  bound_servers (mem Example.world_reloaded) "" = [].
Proof.
  destruct (reachable_tables_aligned Example.world_reloaded
              world_reloaded_reachable) as (H1 & _ & _ & _ & _ & H2).
  split; [exact H1 | exact H2].
Defined.

(** ** Witnesses *)

Lemma handle_fans_out_witness :
  exists tasks,
    handle Example.send_ok Example.hello Example.world_bound
    = gather Example.send_ok tasks Example.world_bound /\
    Forall2 (fun b t => snd (fst b) = Some (fst t) /\
                        snd t = relay_text Example.hello Example.guild_a (fst t))
            (target_set (mem Example.world_bound) "alpha" 1) tasks.
Proof.
  apply (handle_fans_out Example.send_ok Example.hello Example.world_bound
           Example.guild_a "alpha" Example.chan_a world_bound_reachable
           eq_refl eq_refl eq_refl eq_refl).
  repeat constructor; discriminate.
Defined.

Lemma format_mentions_inert_witness :
  format_mentions Example.hello "hello <@123>" Example.guild_b
  = rewrite_spec Example.hello "hello <@123>" Example.guild_b.
Proof.
  apply (format_mentions_inert Example.hello "hello <@123>" Example.guild_b).
  - intros u [<-|[]]. discriminate.
  - intros u m [<-|[]] Hm. vm_compute in Hm. injection Hm as <-. reflexivity.
Defined.

Lemma format_mentions_unresolved_witness :
  format_mentions Example.hello "hello <@123>" Example.guild_c
  = "hello <@123>".
Proof.
  apply (format_mentions_unresolved Example.hello "hello <@123>"
           Example.guild_c).
  intros u [<-|[]]. reflexivity.
Defined.
